(** * namshibot: a shallow embedding of [bot.py] and its verified properties

    The bot receives a text message, classifies it as a Namshi product URL
    ([is_namshi_url]), scrapes the product page ([extract_product_info]),
    downloads the product images and sends them back in media groups of at
    most ten photos ([handle_message]).

    Python values are embedded as follows.
    - [str] is Rocq's [string]; a character is a code point below 256.
    - [list] is [list]; [dict.fromkeys] keeps its insertion order and is a
      duplicate-free list of keys.
    - a call that may raise returns an [outcome].
    - the network (HTTP, the Telegram Bot API) is an explicit [World]. *)

From Stdlib Require Import Ascii String.
From stdpp Require Import base option list strings gmap sorting.
From Stdlib Require Import ZArith Lia ZifyNat.

Local Open Scope list_scope.

(** ** Python string primitives *)

Module PyStr.

Definition newline : ascii := "010"%char.

(** [s[len(p):]] when [s.startswith(p)]. *)
Fixpoint strip_prefix (p s : string) : option string :=
  match p with
  | EmptyString => Some s
  | String a p' =>
      match s with
      | EmptyString => None
      | String b s' => if decide (a = b) then strip_prefix p' s' else None
      end
  end.

(** [s.startswith(p)] *)
Definition startswith (s p : string) : bool :=
  match strip_prefix p s with Some _ => true | None => false end.

(** [s.partition(sep)] as an option: the text before and after the first
    occurrence of [sep], scanning from the left. *)
Fixpoint cut (sep s : string) : option (string * string) :=
  match strip_prefix sep s with
  | Some after => Some (EmptyString, after)
  | None =>
      match s with
      | EmptyString => None
      | String c s' =>
          match cut sep s' with
          | Some (before, after) => Some (String c before, after)
          | None => None
          end
      end
  end.

(** [sub in s] *)
Definition contains (sub s : string) : bool :=
  match cut sub s with Some _ => true | None => false end.

(** [s.split(sep)] for a non-empty separator: cut at the first occurrence
    and go on after it.  [fuel] bounds the number of cuts; the length of
    [s] is always enough. *)
Fixpoint split_aux (sep : string) (fuel : nat) (s : string) : list string :=
  match cut sep s with
  | None => [s]
  | Some (before, after) =>
      before :: match fuel with
                | O => [after]
                | S n => split_aux sep n after
                end
  end.

Definition split (s sep : string) : list string :=
  split_aux sep (String.length s) s.

(** [str.isspace] on one character (code points below 256). *)
Definition isspace (c : ascii) : bool :=
  let n := nat_of_ascii c in
  ((9 <=? n) && (n <=? 13)) || ((28 <=? n) && (n <=? 32))
  || (n =? 133) || (n =? 160).

Fixpoint lstrip (s : string) : string :=
  match s with
  | EmptyString => EmptyString
  | String c s' => if isspace c then lstrip s' else s
  end.

Fixpoint rstrip (s : string) : string :=
  match s with
  | EmptyString => EmptyString
  | String c s' =>
      match rstrip s' with
      | EmptyString => if isspace c then EmptyString else String c EmptyString
      | r => String c r
      end
  end.

(** [s.strip()] *)
Definition strip (s : string) : string := rstrip (lstrip s).

(** [str.lower] on one character: A-Z and the Latin-1 capitals. *)
Definition lower_char (c : ascii) : ascii :=
  let n := nat_of_ascii c in
  if ((65 <=? n) && (n <=? 90))
     || ((192 <=? n) && (n <=? 222) && negb (n =? 215))
  then ascii_of_nat (n + 32) else c.

(** [s.lower()] *)
Fixpoint lower (s : string) : string :=
  match s with
  | EmptyString => EmptyString
  | String c s' => String (lower_char c) (lower s')
  end.

(** [sep.join(l)] *)
Fixpoint join (sep : string) (l : list string) : string :=
  match l with
  | [] => EmptyString
  | [x] => x
  | x :: l' => x +:+ sep +:+ join sep l'
  end.

Fixpoint no_newline (s : string) : bool :=
  match s with
  | EmptyString => true
  | String c s' => if decide (c = newline) then false else no_newline s'
  end.

End PyStr.

(** ** The regular expression of [is_namshi_url] *)

Module Re.
Import PyStr.

(** The constructs the pattern uses: a literal run of characters, an
    optional literal group ([s?], [(?:www\.)?]) and the lazy [.*?]. *)
Inductive atom : Type :=
| Lit (l : string)
| OptLit (l : string)
| LazyDotStar.

Definition regex : Type := list atom.

(** First alternative that succeeds, as a backtracking matcher tries them. *)
Definition orelse {A} (x y : option A) : option A :=
  match x with Some _ => x | None => y end.

(** [re.match(p, s)]: the pattern is anchored at the start of [s] only.
    The result is the text left after the match, [None] when there is no
    match.  [OptLit] is greedy (the group is tried first); [LazyDotStar]
    tries the shortest run first and never steps over a line feed. *)
Fixpoint re_match (p : regex) (s : string) : option string :=
  match p with
  | [] => Some s
  | Lit l :: p' =>
      match strip_prefix l s with
      | Some s' => re_match p' s'
      | None => None
      end
  | OptLit l :: p' =>
      orelse (match strip_prefix l s with
              | Some s' => re_match p' s'
              | None => None
              end)
             (re_match p' s)
  | LazyDotStar :: p' =>
      (fix scan (s : string) : option string :=
         orelse (re_match p' s)
                (match s with
                 | EmptyString => None
                 | String c s' =>
                     if decide (c = newline) then None else scan s'
                 end)) s
  end.

(** The strings a pattern matches a prefix of, read off the pattern. *)
Fixpoint lang (p : regex) (s : string) : Prop :=
  match p with
  | [] => True
  | Lit l :: p' => ∃ s', s = l +:+ s' ∧ lang p' s'
  | OptLit l :: p' => (∃ s', s = l +:+ s' ∧ lang p' s') ∨ lang p' s
  | LazyDotStar :: p' =>
      ∃ m s', s = m +:+ s' ∧ no_newline m = true ∧ lang p' s'
  end.

End Re.

(** ** [bot.py]: the URL classifier *)

(** r'https?://(?:www\.)?namshi\.com/.*?/p/' *)
Definition namshi_url_re : Re.regex :=
  [Re.Lit "http"; Re.OptLit "s"; Re.Lit "://"; Re.OptLit "www.";
   Re.Lit "namshi.com/"; Re.LazyDotStar; Re.Lit "/p/"].

(** [bool(re.match(..., url))] *)
Definition is_namshi_url (url : string) : bool :=
  match Re.re_match namshi_url_re url with
  | Some _ => true
  | None => false
  end.

(** A path segment of a URL: a text without a slash and without a line
    feed. *)
Definition path_segment (s : string) : Prop :=
  PyStr.contains "/" s = false ∧ PyStr.no_newline s = true.

(** The path made of path segments, each one after a slash. *)
Fixpoint path_of (segments : list string) : string :=
  match segments with
  | [] => ""
  | segment :: segments' => "/" +:+ segment +:+ path_of segments'
  end.

(** The retailer pattern in the words of the specification:
    "http(s)://[www.]namshi.com/.../p/" anchored at the start of the string,
    with an optional [www.] and optional, possibly zero, path segments
    before the literal [/p/] marker. *)
Definition retailer_pattern (segments : list string) (url : string) : Prop :=
  ∃ scheme www rest : string,
    (scheme = "http" ∨ scheme = "https") ∧
    (www = "" ∨ www = "www.") ∧
    Forall path_segment segments ∧
    url = scheme +:+ "://" +:+ www +:+ "namshi.com"
          +:+ path_of segments +:+ "/p/" +:+ rest.

(** ** Exceptions and results of Python calls *)

Inductive exn : Type :=
| ValueError
| IndexError
| RequestException
| HTTPError
| ParserRejectedMarkup
| TelegramError.

Inductive outcome (A : Type) : Type :=
| Ret (a : A)
| Raise (e : exn).
Arguments Ret {A} a.
Arguments Raise {A} e.

Global Instance outcome_ret : MRet outcome := fun _ a => Ret a.
Global Instance outcome_bind : MBind outcome := fun _ _ f x =>
  match x with
  | Ret a => f a
  | Raise e => Raise e
  end.

(** [try: body except Exception: handler] *)
Definition try_except {A} (body : outcome A) (handler : exn → outcome A)
  : outcome A :=
  match body with
  | Ret a => Ret a
  | Raise e => handler e
  end.

(** [l[i]] *)
Definition py_index {A} (l : list A) (i : nat) : outcome A :=
  match l !! i with
  | Some x => Ret x
  | None => Raise IndexError
  end.

(** [for x in l: acc = step(acc, x)], stopping at the first exception. *)
Fixpoint for_each {A S} (l : list A) (step : S → A → outcome S) (acc : S)
  : outcome S :=
  match l with
  | [] => Ret acc
  | x :: l' => acc' ← step acc x; for_each l' step acc'
  end.

(** ** [int(s)] on a string *)

Module PyInt.
Import PyStr.

(** Decimal digits, single underscores allowed between two digits. *)
Fixpoint digits (acc : Z) (after_digit : bool) (s : string) : option Z :=
  match s with
  | EmptyString => if after_digit then Some acc else None
  | String c s' =>
      match Ascii.is_nat c with
      | Some d => digits (10 * acc + Z.of_nat d) true s'
      | None =>
          if decide (c = "_"%char)
          then (if after_digit then digits acc false s' else None)
          else None
      end
  end.

(** The white space [int] skips at both ends: the ASCII white space
    (tab to carriage return, space), and the Latin-1 spaces U+0085 and
    U+00A0, which [int] first turns into spaces.  The separators
    U+001C-U+001F, which [str.strip] removes, are not skipped. *)
Definition int_space (c : ascii) : bool :=
  let n := nat_of_ascii c in
  ((9 <=? n) && (n <=? 13)) || (n =? 32) || (n =? 133) || (n =? 160).

Fixpoint lskip (s : string) : string :=
  match s with
  | EmptyString => EmptyString
  | String c s' => if int_space c then lskip s' else s
  end.

Fixpoint rskip (s : string) : string :=
  match s with
  | EmptyString => EmptyString
  | String c s' =>
      match rskip s' with
      | EmptyString => if int_space c then EmptyString else String c EmptyString
      | r => String c r
      end
  end.

(** The number of decimal digits of a text. *)
Fixpoint digit_count (s : string) : nat :=
  match s with
  | EmptyString => 0
  | String c s' =>
      match Ascii.is_nat c with
      | Some _ => S (digit_count s')
      | None => digit_count s'
      end
  end.

(** [sys.get_int_max_str_digits()], by default. *)
Definition max_str_digits : nat := 4300.

(** [int(s)]: the white space at both ends is skipped, then come an
    optional sign and the digits; anything else is a [ValueError], and so
    is a number of more than [max_str_digits] digits. *)
Definition int (s : string) : outcome Z :=
  let t := rskip (lskip s) in
  let r := match t with
           | String "+"%char d => digits 0 false d
           | String "-"%char d => Z.opp <$> digits 0 false d
           | _ => digits 0 false t
           end in
  match r with
  | Some z =>
      if (max_str_digits <? digit_count t)%nat then Raise ValueError else Ret z
  | None => Raise ValueError
  end.

End PyInt.

(** ** The parsed page: BeautifulSoup trees and the CSS selectors used *)

Module Soup.
Import PyStr.

(** A parsed document is a forest of text nodes and tags; a tag carries its
    lower-cased name, its attribute dictionary and its contents. *)
#[warnings="-register-all"]
Inductive node : Type :=
| NavigableString (s : string)
| Tag (name : string) (attrs : gmap string string) (contents : list node).

(** What the bot reads of a selected tag: [tag.attrs] and [tag.text]. *)
Record element : Type := Element {
  el_name : string;
  el_attrs : gmap string string;
  el_text : string
}.

(** [tag.text]: every string below the tag, in document order. *)
Fixpoint get_text (n : node) : string :=
  match n with
  | NavigableString s => s
  | Tag _ _ cs =>
      (fix go (l : list node) : string :=
         match l with
         | [] => EmptyString
         | c :: l' => get_text c +:+ go l'
         end) cs
  end.

Definition flush (cur : option string) : list string :=
  match cur with Some w => [w] | None => [] end.

(** The white-space separated words of a [class] attribute. *)
Fixpoint words_go (cur : option string) (s : string) : list string :=
  match s with
  | EmptyString => flush cur
  | String c s' =>
      if isspace c then flush cur ++ words_go None s'
      else words_go (Some (default EmptyString cur +:+ String c EmptyString)) s'
  end.

Definition words (s : string) : list string := words_go None s.

Inductive simple : Type :=
| HasClass (c : string)            (* .c          *)
| AttrEq (a v : string)            (* [a="v"]     *)
| AttrContains (a v : string)      (* [a*="v"]    *)
| NotAttr (a : string).            (* :not([a])   *)

Record compound : Type := Compound {
  sel_tag : string;
  sel_simple : list simple
}.

(** [inside] lists the compounds to the left of the descendant combinators,
    nearest ancestor first. *)
Record complex : Type := Complex {
  subject : compound;
  inside : list compound
}.

(** A comma-separated selector list. *)
Definition selector : Type := list complex.

(** The value a selector compares: the class list is joined by spaces. *)
Definition attr_text (a v : string) : string :=
  if decide (a = "class") then join " " (words v) else v.

Definition matches_simple (attrs : gmap string string) (s : simple) : bool :=
  match s with
  | HasClass c =>
      match attrs !! "class" with
      | Some v => bool_decide (c ∈ words v)
      | None => false
      end
  | AttrEq a v =>
      match attrs !! a with
      | Some x => bool_decide (attr_text a x = v)
      | None => false
      end
  | AttrContains a v =>
      match attrs !! a with
      | Some x => contains v (attr_text a x)
      | None => false
      end
  | NotAttr a =>
      match attrs !! a with
      | Some _ => false
      | None => true
      end
  end.

Definition matches_compound (name : string) (attrs : gmap string string)
    (c : compound) : bool :=
  bool_decide (name = sel_tag c) && forallb (matches_simple attrs) (sel_simple c).

Fixpoint inside_ok (reqs : list compound)
    (ancestors : list (string * gmap string string)) : bool :=
  match reqs with
  | [] => true
  | r :: reqs' =>
      (fix up (anc : list (string * gmap string string)) : bool :=
         match anc with
         | [] => false
         | (n, a) :: anc' =>
             if matches_compound n a r then inside_ok reqs' anc' else up anc'
         end) ancestors
  end.

Definition matches (sel : selector) (name : string)
    (attrs : gmap string string)
    (ancestors : list (string * gmap string string)) : bool :=
  existsb (fun c => matches_compound name attrs (subject c)
                    && inside_ok (inside c) ancestors) sel.

Fixpoint select_node (sel : selector)
    (ancestors : list (string * gmap string string)) (n : node)
  : list element :=
  match n with
  | NavigableString _ => []
  | Tag name attrs cs =>
      (if matches sel name attrs ancestors
       then [Element name attrs (get_text n)] else [])
      ++ (fix go (l : list node) : list element :=
            match l with
            | [] => []
            | c :: l' => select_node sel ((name, attrs) :: ancestors) c ++ go l'
            end) cs
  end.

(** [soup.select(sel)]: the matching tags in document order. *)
Definition select (soup : list node) (sel : selector) : list element :=
  flat_map (select_node sel []) soup.

(** [soup.select_one(sel)] *)
Definition select_one (soup : list node) (sel : selector) : option element :=
  head (select soup sel).

Definition tag_sel (t : string) (l : list simple) : complex :=
  Complex (Compound t l) [].

End Soup.

(** ** The outside world: HTTP and the HTML parser *)

Record response : Type := Response {
  status_code : nat;
  text : string;
  content : list Byte.byte
}.

(** [response.raise_for_status()] raises on a 4xx or 5xx status. *)
Definition raise_for_status (r : response) : outcome unit :=
  if (400 <=? status_code r)%nat && (status_code r <? 600)%nat
  then Raise HTTPError else Ret tt.

(** [requests.get(url, headers=...)] answers or raises;
    [BeautifulSoup(text, 'html.parser')] gives the forest of the page, or
    raises on markup the parser rejects. *)
Record Web : Type := {
  requests_get : string → list (string * string) → outcome response;
  html_parser : string → outcome (list Soup.node)
}.

(** ** [bot.py]: extracting the product record *)

Record product_info : Type := ProductInfo {
  name : string;
  price : string;
  sizes : list string;
  image_urls : list string
}.

Section Extraction.
Import PyStr Soup.

Definition headers : list (string * string) :=
  [("User-Agent",
    "Mozilla/5.0 (Macintosh; Intel Mac OS X 10_15_7) AppleWebKit/537.36 (KHTML, like Gecko) Chrome/91.0.4472.124 Safari/537.36");
   ("Accept-Language", "en-US,en;q=0.9")].

(** The selectors of [extract_product_info], in the order they are tried. *)
Definition sel_meta_title : selector :=
  [tag_sel "meta" [AttrEq "property" "og:title"]].
Definition sel_title_exact : selector :=
  [tag_sel "h1" [HasClass "ProductConversion_productTitle__dvlc5"]].
Definition sel_title_loose : selector :=
  [tag_sel "h1" [AttrContains "class" "productTitle"]].
Definition sel_price_exact : selector :=
  [tag_sel "span" [HasClass "ProductPrice_value__hnFSS"]].
Definition sel_price_loose : selector :=
  [tag_sel "span" [AttrContains "class" "value"]].
Definition sel_size_exact : selector :=
  [tag_sel "button" [HasClass "SizePills_size_variant__4qpXf"; NotAttr "disabled"]].
Definition sel_size_loose : selector :=
  [tag_sel "button" [AttrContains "class" "size_variant"; NotAttr "disabled"]].
Definition sel_gallery : selector :=
  [Complex (Compound "img" [])
           [Compound "div" [HasClass "ImageGallery_imageContainer__jmn93"]]].
Definition sel_meta_image : selector :=
  [tag_sel "meta" [AttrEq "property" "og:image"]].
Definition sel_alt_images : selector :=
  [tag_sel "img" [AttrContains "alt" "PUMA"];
   tag_sel "img" [AttrContains "alt" "product"];
   tag_sel "img" [AttrContains "alt" "Product"]].

(** [x if x else y] on the result of [select_one] ([not tag] is false for
    every tag) and of [select] (an empty result list is falsy). *)
Definition or_else_one (x y : option element) : option element :=
  match x with Some _ => x | None => y end.
Definition or_else_all (x y : list element) : list element :=
  match x with [] => y | _ => x end.

(** Lines 98-100 and 124-125:
    [image_url.split('width=')[0] + 'width=800'] when ['width=' in image_url]. *)
Definition upgrade_width (image_url : string) : outcome string :=
  if contains "width=" image_url
  then before ← py_index (split image_url "width=") 0;
       mret (before +:+ "width=800")
  else mret image_url.

(** Lines 94-101, one gallery image. *)
Definition gallery_step (image_urls : list string) (img : element)
  : outcome (list string) :=
  match el_attrs img !! "src" with
  | Some src =>
      if startswith src "http"
      then image_url ← upgrade_width src; mret (image_urls ++ [image_url])
      else mret image_urls
  | None => mret image_urls
  end.

(** Lines 106-110, one [og:image] annotation. *)
Definition meta_step (image_urls : list string) (img : element)
  : outcome (list string) :=
  match el_attrs img !! "content" with
  | Some c =>
      if startswith c "http" && negb (contains "namshi-logo" (lower c))
      then (if contains "/p/" c || contains "pzsku" c
            then mret (image_urls ++ [c]) else mret image_urls)
      else mret image_urls
  | None => mret image_urls
  end.

(** Line 121: [int(image_url.split('width=')[1].split('&')[0])], the parsed
    width parameter. *)
Definition width_param (image_url : string) : outcome Z :=
  after ← py_index (split image_url "width=") 1;
  value ← py_index (split after "&") 0;
  PyInt.int value.

(** Line 121, left operand: ['width=' in image_url and ... > 200]. *)
Definition wide_enough (image_url : string) : outcome bool :=
  if contains "width=" image_url
  then w ← width_param image_url; mret (bool_decide (200 < w)%Z)
  else mret false.

(** Line 122: ['/p/' in image_url or 'pzsku' in image_url]. *)
Definition has_image_marker (image_url : string) : bool :=
  contains "/p/" image_url || contains "pzsku" image_url.

(** Lines 117-126, one image selected by its alt text. *)
Definition alt_step (image_urls : list string) (img : element)
  : outcome (list string) :=
  match el_attrs img !! "src" with
  | Some src =>
      if startswith src "http"
      then wide ← wide_enough src;
           if wide || has_image_marker src
           then image_url ← upgrade_width src; mret (image_urls ++ [image_url])
           else mret image_urls
      else mret image_urls
  | None => mret image_urls
  end.

(** [list(dict.fromkeys(l))]: a dictionary keeps the order in which its keys
    were first inserted. *)
Definition dict_fromkeys (l : list string) : list string :=
  fold_left (fun d k => if decide (k ∈ d) then d else d ++ [k]) l [].

(** Line 135: [any(pattern in url.lower() for pattern in [...])]. *)
Definition likely_product (url : string) : bool :=
  existsb (fun pattern => contains pattern (lower url))
          ["/p/"; "pzsku"; "product"; "/pzsku/"].

(** Lines 128-139: remove duplicates keeping the order, keep the likely
    product images, and revert to the unfiltered list when none is left. *)
Definition resolve (image_urls : list string) : list string :=
  let image_urls := dict_fromkeys image_urls in
  let filtered_urls := filter (fun url => likely_product url = true) image_urls in
  match filtered_urls with
  | [] => image_urls
  | _ => filtered_urls
  end.

(** Lines 63-71. *)
Definition extract_name (soup : list node) : outcome string :=
  let by_heading :=
    let product_name :=
      or_else_one (select_one soup sel_title_exact)
                  (select_one soup sel_title_loose) in
    match product_name with
    | Some h => mret (strip (el_text h))
    | None => mret "Product name not found"
    end in
  match select_one soup sel_meta_title with
  | Some meta_title =>
      match el_attrs meta_title !! "content" with
      | Some c => first ← py_index (split c "|") 0; mret (strip first)
      | None => by_heading
      end
  | None => by_heading
  end.

(** Lines 74-77. *)
Definition extract_price (soup : list node) : string :=
  match or_else_one (select_one soup sel_price_exact)
                    (select_one soup sel_price_loose) with
  | Some price_element => strip (el_text price_element)
  | None => "Price not found"
  end.

(** Lines 80-87. *)
Definition extract_sizes (soup : list node) : list string :=
  (fun size_element => strip (el_text size_element))
    <$> or_else_all (select soup sel_size_exact) (select soup sel_size_loose).

(** Lines 90-126: the three approaches, the next one only when the list is
    still empty. *)
Definition extract_images (soup : list node) : outcome (list string) :=
  image_urls ← for_each (select soup sel_gallery) gallery_step [];
  image_urls ← (match image_urls with
                | [] => for_each (select soup sel_meta_image) meta_step image_urls
                | _ => mret image_urls
                end);
  match image_urls with
  | [] => for_each (select soup sel_alt_images) alt_step image_urls
  | _ => mret image_urls
  end.

Variable web : Web.

(** The body of the [try] block, lines 56-146. *)
Definition extract_body (clean_url : string) : outcome product_info :=
  response ← requests_get web clean_url headers;
  _ ← raise_for_status response;
  soup ← html_parser web (text response);
  name ← extract_name soup;
  let price := extract_price soup in
  let sizes := extract_sizes soup in
  image_urls ← extract_images soup;
  mret (ProductInfo name price sizes (resolve image_urls)).

Definition error_record : product_info :=
  ProductInfo "Error extracting product name" "Error extracting price" [] [].

(** Line 48: [url.split('?')[0] if '?' in url else url]. *)
Definition clean_url (url : string) : outcome string :=
  if contains "?" url then py_index (split url "?") 0 else mret url.

Definition extract_product_info (url : string) : outcome product_info :=
  clean_url ← clean_url url;
  try_except (extract_body clean_url) (fun _ => mret error_record).

End Extraction.

(** ** The Telegram side *)

Inductive ParseMode : Type := MARKDOWN.

Record InputMediaPhoto : Type := {
  media : list Byte.byte;
  caption : string;
  parse_mode : option ParseMode
}.

Record Message : Type := {
  chat_id : Z;
  message_id : Z
}.

(** The Bot API calls the handler makes. *)
Inductive call : Type :=
| ReplyText (body : string) (mode : option ParseMode)
| SendMediaGroup (chat : Z) (group : list InputMediaPhoto)
| DeleteMessage (chat : Z) (msg : Z).

(** The incoming update: [update.message.text], [update.effective_chat.id]. *)
Record Update : Type := {
  message_text : string;
  effective_chat_id : Z
}.

(** The world of one request: the web, and Telegram, which answers a call
    with the message it created or raises, possibly depending on the calls
    completed before. *)
Record World : Type := {
  web : Web;
  telegram : list call → call → outcome Message
}.

(** A handler step: from the calls completed so far to a result and the calls
    completed after it. *)
Definition bot (A : Type) : Type := list call → outcome A * list call.

Global Instance bot_ret : MRet bot := fun _ a done => (Ret a, done).
Global Instance bot_bind : MBind bot := fun _ _ f x done =>
  match x done with
  | (Ret a, done') => f a done'
  | (Raise e, done') => (Raise e, done')
  end.

(** One Bot API call; a call that raises is not completed. *)
Definition api (w : World) (c : call) : bot Message := fun done =>
  match telegram w done c with
  | Ret m => (Ret m, done ++ [c])
  | Raise e => (Raise e, done)
  end.

(** A Python call that makes no Bot API call. *)
Definition pure {A} (x : outcome A) : bot A := fun done => (x, done).

(** [for x in l: body(x)] *)
Fixpoint bot_for {A} (l : list A) (body : A → bot unit) : bot unit :=
  match l with
  | [] => mret tt
  | x :: l' => _ ← body x; bot_for l' body
  end.

(** [range(start, stop, step)] for a positive step, as the loop counts. *)
Fixpoint range_go (fuel i stop step : nat) : list nat :=
  match fuel with
  | O => []
  | S fuel' => if (i <? stop)%nat then i :: range_go fuel' (i + step) stop step else []
  end.

Definition py_range (start stop step : nat) : list nat :=
  range_go stop start stop step.

(** [l[i:j]] for indices within [0, ...). *)
Definition py_slice {A} (l : list A) (i j : nat) : list A :=
  take (j - i) (drop i l).

(** [list(enumerate(l))] *)
Definition enumerate {A} (l : list A) : list (nat * A) := imap pair l.

(** ** [bot.py]: downloading and delivering *)

Section Delivery.
Import PyStr.
Variable w : World.

(** [download_image]: the bytes of the image, [None] on any exception. *)
Definition download_image (url : string) : option (list Byte.byte) :=
  match (response ← requests_get (web w) url [];
         _ ← raise_for_status response;
         mret (content response)) with
  | Ret image_data => Some image_data
  | Raise _ => None
  end.

(** Lines 179-184. *)
Definition details_text (info : product_info) : string :=
  let sizes_text :=
    match sizes info with
    | [] => "No sizes available"
    | _ => join ", " (sizes info)
    end in
  "*" +:+ name info +:+ "*" +:+ String newline (String newline "")
  +:+ "*Price:* " +:+ price info +:+ String newline (String newline "")
  +:+ "*Available Sizes:* " +:+ sizes_text.

(** Lines 192-206: the photos of the images that could be downloaded
    ([if image_data:] is false for [None] and for empty bytes); the caption
    goes to the image whose index in [image_urls] is 0. *)
Definition build_media_group (info : product_info) : list InputMediaPhoto :=
  fold_left
    (fun media_group '(i, image_url) =>
       match download_image image_url with
       | Some ((_ :: _) as image_data) =>
           media_group ++
           [{| media := image_data;
               caption := if decide (i = 0%nat) then details_text info else "";
               parse_mode := if decide (i = 0%nat) then Some MARKDOWN else None |}]
       | _ => media_group
       end)
    (enumerate (image_urls info)) [].

(** Lines 210-222. *)
Definition send_media_groups (chat : Z) (media_group : list InputMediaPhoto)
  : bot unit :=
  if (length media_group <=? 10)%nat
  then _ ← api w (SendMediaGroup chat media_group); mret tt
  else bot_for (py_range 0 (length media_group) 10)
         (fun i =>
            let batch := py_slice media_group i (i + 10) in
            _ ← api w (SendMediaGroup chat batch); mret tt).

Definition handle_message (update : Update) : bot unit :=
  let message_text := message_text update in
  if is_namshi_url message_text
  then
    processing_msg ←
      api w (ReplyText "Processing your Namshi product URL... Please wait." None);
    product_info ← pure (extract_product_info (web w) message_text);
    let details_text := details_text product_info in
    _ ← (match image_urls product_info with
         | _ :: _ =>
             let media_group := build_media_group product_info in
             match media_group with
             | _ :: _ =>
                 _ ← send_media_groups (effective_chat_id update) media_group;
                 _ ← api w (ReplyText "All product information has been sent!" None);
                 mret tt
             | [] =>
                 _ ← api w (ReplyText details_text (Some MARKDOWN));
                 _ ← api w (ReplyText "Failed to download product images." None);
                 mret tt
             end
         | [] =>
             _ ← api w (ReplyText details_text (Some MARKDOWN));
             _ ← api w (ReplyText "No product images found." None);
             mret tt
         end);
    _ ← api w (DeleteMessage (chat_id processing_msg) (message_id processing_msg));
    mret tt
  else
    _ ← api w (ReplyText
      "Please send a valid Namshi product URL (e.g., https://www.namshi.com/uae-en/buy-product-name/product-id/p/)"
      None);
    mret tt.

End Delivery.

(** The media groups and the photos of the completed calls, in order. *)
Definition groups_sent (done : list call) : list (list InputMediaPhoto) :=
  omap (fun c => match c with
                 | SendMediaGroup _ group => Some group
                 | _ => None
                 end) done.

Definition photos_sent (done : list call) : list InputMediaPhoto :=
  concat (groups_sent done).

Definition is_text (body : string) (c : call) : bool :=
  match c with
  | ReplyText b _ => bool_decide (b = body)
  | _ => false
  end.

(** ** Notions used in the statements *)

(** [l.index(x)]: the position at which [x] is first seen in [l]. *)
Fixpoint index_of (x : string) (l : list string) : option nat :=
  match l with
  | [] => None
  | y :: l' => if decide (y = x) then Some 0%nat else S <$> index_of x l'
  end.

(** [x] is first seen in [l] before [y] is. *)
Definition seen_before (l : list string) (x y : string) : Prop :=
  ∃ p q, index_of x l = Some p ∧ index_of y l = Some q ∧ (p < q)%nat.

(** Keeping the first occurrence of every entry, from the left. *)
Fixpoint dedup_first (l : list string) : list string :=
  match l with
  | [] => []
  | x :: l' => x :: filter (fun y => y ≠ x) (dedup_first l')
  end.

(** ** Sample pages and worlds *)

(** A web that answers every request with status 200 and whose pages all
    parse to [soup]; images are served as [image]. *)
Definition web_serving (soup : list Soup.node) (image : list Byte.byte) : Web :=
  {| requests_get := fun _ _ => Ret (Response 200 "" image);
     html_parser := fun _ => Ret soup |}.


(** <img alt="product" src=...> *)
Definition img_with_src (src : string) : Soup.element :=
  Soup.Element "img" {[ "alt" := "product"; "src" := src ]} "".

(** The arguments of the successive [send_media_group] calls of lines
    210-222. *)
Definition batches_of (media_group : list InputMediaPhoto)
  : list (list InputMediaPhoto) :=
  if (length media_group <=? 10)%nat then [media_group]
  else (fun i => py_slice media_group i (i + 10))
         <$> py_range 0 (length media_group) 10.

(** The photo made at lines 197-205 for the image at index [i]. *)
Definition photo_at (info : product_info) (w : World) (i : nat) (image_url : string)
  : option InputMediaPhoto :=
  match download_image w image_url with
  | Some ((_ :: _) as image_data) =>
      Some {| media := image_data;
              caption := if decide (i = 0%nat) then details_text info else "";
              parse_mode := if decide (i = 0%nat) then Some MARKDOWN else None |}
  | _ => None
  end.

(** The calls between the "processing" reply and the deletion. *)
Definition delivery_calls (w : World) (update : Update) (info : product_info)
  : list call :=
  match image_urls info with
  | [] => [ReplyText (details_text info) (Some MARKDOWN);
           ReplyText "No product images found." None]
  | _ :: _ =>
      match build_media_group w info with
      | [] => [ReplyText (details_text info) (Some MARKDOWN);
               ReplyText "Failed to download product images." None]
      | (_ :: _) as media_group =>
          (SendMediaGroup (effective_chat_id update) <$> batches_of media_group)
          ++ [ReplyText "All product information has been sent!" None]
      end
  end.

Definition is_delete (c : call) : bool :=
  match c with DeleteMessage _ _ => true | _ => false end.

(** Telegram completes every call other than [delete_message]. *)
Definition delivers (w : World) : Prop :=
  ∀ done c, is_delete c = false → ∃ m, telegram w done c = Ret m.

(** Telegram completes every call. *)
Definition accepts_all (w : World) : Prop :=
  ∀ done c, ∃ m, telegram w done c = Ret m.

Definition processing_text : string :=
  "Processing your Namshi product URL... Please wait.".

(** A product page with a gallery of two images. *)
Definition page_two_images : list Soup.node :=
  [Soup.Tag "div" {[ "class" := "ImageGallery_imageContainer__jmn93" ]}
     [Soup.Tag "img" {[ "src" := "https://cdn/p/1.jpg" ]} [];
      Soup.Tag "img" {[ "src" := "https://cdn/p/2.jpg" ]} []]].

(** The page is served, the first image is not. *)
Definition web_first_image_down : Web :=
  {| requests_get := fun url _ =>
       if decide (url = "https://cdn/p/1.jpg") then Raise RequestException
       else Ret (Response 200 "" [Byte.x89; Byte.x50]);
     html_parser := fun _ => Ret page_two_images |}.

Definition sent_message : Message := {| chat_id := 7; message_id := 41 |}.

Definition world_first_image_down : World :=
  {| web := web_first_image_down;
     telegram := fun _ _ => Ret sent_message |}.

(** Telegram refuses to delete messages. *)
Definition world_delete_fails : World :=
  {| web := web_serving [] [];
     telegram := fun _ c =>
       if is_delete c then Raise TelegramError else Ret sent_message |}.

Definition sample_update : Update :=
  {| message_text := "https://www.namshi.com/uae-en/buy-shoe/123456/p/";
     effective_chat_id := 7 |}.

(** A product page with a gallery of twelve images, all of them served. *)
Definition page_twelve_images : list Soup.node :=
  [Soup.Tag "div" {[ "class" := "ImageGallery_imageContainer__jmn93" ]}
     ((fun k => Soup.Tag "img" {[ "src" := "https://cdn/p/" +:+ k +:+ ".jpg" ]} [])
        <$> ["a"; "b"; "c"; "d"; "e"; "f"; "g"; "h"; "i"; "j"; "k"; "l"])].

Definition world_twelve_images : World :=
  {| web := web_serving page_twelve_images [Byte.x89; Byte.x50];
     telegram := fun _ _ => Ret sent_message |}.

(** ** The handler's plan *)

(** Line 241, the reply to a message that is not a product URL. *)
Definition guidance_text : string :=
  "Please send a valid Namshi product URL (e.g., https://www.namshi.com/uae-en/buy-product-name/product-id/p/)".

(** Making the calls of a list one after the other, the results unused; the
    first call that raises ends the run. *)
Fixpoint perform (w : World) (cs : list call) : bot unit :=
  match cs with
  | [] => mret tt
  | c :: cs' => _ ← api w c; perform w cs'
  end.

(** The record the handler works with. *)
Definition extracted (w : World) (update : Update) : product_info :=
  match extract_product_info (web w) (message_text update) with
  | Ret info => info
  | Raise _ => error_record
  end.

(** The calls [handle_message] sets out to make, in order. *)
Definition handler_plan (w : World) (update : Update) : list call :=
  if is_namshi_url (message_text update)
  then match telegram w [] (ReplyText processing_text None) with
       | Ret processing_msg =>
           ReplyText processing_text None
           :: delivery_calls w update (extracted w update)
           ++ [DeleteMessage (chat_id processing_msg) (message_id processing_msg)]
       | Raise _ => [ReplyText processing_text None]
       end
  else [ReplyText guidance_text None].

(** [if image_data:] at line 195: what [download_image] returned, when it is
    neither [None] nor empty. *)
Definition usable (image_data : option (list Byte.byte))
  : option (list Byte.byte) :=
  match image_data with
  | Some ((_ :: _) as d) => Some d
  | _ => None
  end.

(** <img alt="product" src="http://cdn/a.jpg?width=abc"> on a page with a
    title and a price, whose gallery holds one image with a relative [src]
    and whose only [og:image] annotation is the logo. *)
Definition page_bad_width : list Soup.node :=
  [Soup.Tag "meta" {[ "property" := "og:title"; "content" := "Running Shoe | Namshi" ]} [];
   Soup.Tag "meta" {[ "property" := "og:image";
                      "content" := "https://cdn/Namshi-Logo.png" ]} [];
   Soup.Tag "span" {[ "class" := "ProductPrice_value__hnFSS" ]}
     [Soup.NavigableString "AED 199"];
   Soup.Tag "div" {[ "class" := "ImageGallery_imageContainer__jmn93" ]}
     [Soup.Tag "img" {[ "src" := "/static/p/1.jpg" ]} []];
   Soup.Tag "img" {[ "alt" := "product"; "src" := "http://cdn/a.jpg?width=abc" ]} []].

(** A Telegram that completes the first [n] calls and refuses the next. *)
Definition world_failing_after (n : nat) : World :=
  {| web := web_serving page_twelve_images [Byte.x89; Byte.x50];
     telegram := fun done _ =>
       if (length done <? n)%nat then Ret sent_message else Raise TelegramError |}.

(** The URLs of a list all begin with [http]. *)
Definition absolute (image_urls : list string) : Prop :=
  Forall (fun image_url => PyStr.startswith image_url "http" = true) image_urls.

(** A media group goes to the chat of the update and holds from 1 to 10
    photos; the other calls are not constrained. *)
Definition well_formed_call (update : Update) (c : call) : Prop :=
  match c with
  | SendMediaGroup chat group =>
      chat = effective_chat_id update ∧ (1 ≤ length group ≤ 10)%nat
  | _ => True
  end.

(** The page is served, none of its images is. *)
Definition world_all_images_down : World :=
  {| web := {| requests_get := fun url _ =>
                 if is_namshi_url url then Ret (Response 200 "" [])
                 else Ret (Response 503 "" [Byte.x89]);
               html_parser := fun _ => Ret page_two_images |};
     telegram := fun _ _ => Ret sent_message |}.



(** * Properties *)

(** ** Strings *)

Lemma str_app_nil_l (s : string) : "" +:+ s = s.
Proof. reflexivity. Qed.

Lemma str_app_cons (c : ascii) (s t : string) :
  String c s +:+ t = String c (s +:+ t).
Proof. reflexivity. Qed.

Lemma strip_prefix_spec (p s r : string) :
  PyStr.strip_prefix p s = Some r ↔ s = p +:+ r.
Proof.
  revert s. induction p as [|a p IH]; intros s; simpl.
  - rewrite str_app_nil_l. split; congruence.
  - rewrite str_app_cons. destruct s as [|b s]; [split; discriminate|].
    case_decide as Hab.
    + subst b. rewrite IH. split; congruence.
    + split; [discriminate|]. intros [= ? ?]. done.
Qed.

Lemma no_newline_app (s t : string) :
  PyStr.no_newline (s +:+ t) = PyStr.no_newline s && PyStr.no_newline t.
Proof.
  induction s as [|c s IH]; [done|]. rewrite str_app_cons. simpl.
  by case_decide.
Qed.

(** [cut] finds an occurrence, and the leftmost one. *)
Lemma cut_Some (sep s before after : string) :
  PyStr.cut sep s = Some (before, after) →
  s = before +:+ sep +:+ after ∧
  ∀ b a, s = b +:+ sep +:+ a → (String.length before ≤ String.length b)%nat.
Proof.
  revert before after. induction s as [|c s IH]; intros before after; simpl.
  - destruct (PyStr.strip_prefix sep "") as [r|] eqn:E; [|discriminate].
    intros [= <- <-]. apply strip_prefix_spec in E.
    split; [by rewrite str_app_nil_l|]. intros; simpl; lia.
  - destruct (PyStr.strip_prefix sep (String c s)) as [r|] eqn:E.
    + intros [= <- <-]. apply strip_prefix_spec in E.
      split; [by rewrite str_app_nil_l|]. intros; simpl; lia.
    + destruct (PyStr.cut sep s) as [[b0 a0]|] eqn:E'; [|discriminate].
      intros [= <- <-]. destruct (IH _ _ eq_refl) as [-> Hmin].
      split; [by rewrite str_app_cons|].
      intros [|c' b] a Hb.
      * rewrite str_app_nil_l in Hb. apply strip_prefix_spec in Hb. congruence.
      * rewrite str_app_cons in Hb. injection Hb as -> Hb.
        simpl. apply Hmin in Hb. lia.
Qed.

Lemma cut_None (sep s : string) :
  PyStr.cut sep s = None → ∀ b a, s ≠ b +:+ sep +:+ a.
Proof.
  induction s as [|c s IH]; simpl.
  - destruct (PyStr.strip_prefix sep "") as [r|] eqn:E; [discriminate|].
    intros _ [|c b] a Hs; [|by rewrite str_app_cons in Hs].
    rewrite str_app_nil_l in Hs. apply strip_prefix_spec in Hs. congruence.
  - destruct (PyStr.strip_prefix sep (String c s)) as [r|] eqn:E; [discriminate|].
    destruct (PyStr.cut sep s) as [[b0 a0]|] eqn:E'; [discriminate|].
    intros _ [|c' b] a Hs.
    + rewrite str_app_nil_l in Hs. apply strip_prefix_spec in Hs. congruence.
    + rewrite str_app_cons in Hs. injection Hs as -> Hs. by eapply IH.
Qed.

Lemma contains_char_cons (a c : ascii) (s : string) :
  PyStr.contains (String a "") (String c s)
  = if decide (a = c) then true else PyStr.contains (String a "") s.
Proof.
  unfold PyStr.contains. simpl. case_decide; [done|].
  by destruct (PyStr.cut (String a "") s) as [[??]|].
Qed.

(** [s.split(sep)[0]] is the text before the first occurrence of [sep], or
    all of [s] when there is none. *)
Lemma split_first (s sep : string) :
  py_index (PyStr.split s sep) 0 =
  Ret (match PyStr.cut sep s with Some (before, _) => before | None => s end).
Proof.
  unfold PyStr.split. destruct (String.length s); simpl;
    by destruct (PyStr.cut sep s) as [[??]|].
Qed.

(** ** The matcher against the language of the pattern *)

Lemma re_match_lang (p : Re.regex) (s : string) :
  is_Some (Re.re_match p s) ↔ Re.lang p s.
Proof.
  revert s. induction p as [|a p IH]; intros s.
  - simpl. split; eauto.
  - destruct a as [l|l|]; simpl.
    + destruct (PyStr.strip_prefix l s) as [s'|] eqn:E.
      * rewrite IH. apply strip_prefix_spec in E. split; [eauto|].
        intros (s'' & Hs & Hl). subst s. by apply String.app_inj in Hs as ->.
      * split; [by intros [? ?]|]. intros (s' & Hs & _).
        apply strip_prefix_spec in Hs. congruence.
    + destruct (PyStr.strip_prefix l s) as [s'|] eqn:E.
      * apply strip_prefix_spec in E.
        destruct (Re.re_match p s') as [r|] eqn:E'; simpl.
        -- split; [|eauto]. intros _. left. exists s'. split; [done|].
           apply IH. by rewrite E'.
        -- rewrite IH. split; [eauto|]. intros [(s'' & Hs & Hl)|?]; [|done].
           subst s. apply String.app_inj in Hs as <-. apply IH in Hl.
           rewrite E' in Hl. by destruct Hl.
      * simpl. rewrite IH. split; [eauto|]. intros [(s' & Hs & _)|?]; [|done].
        apply strip_prefix_spec in Hs. congruence.
    + induction s as [|c s IHs].
      * destruct (Re.re_match p "") as [r|] eqn:E; simpl.
        -- split; [|eauto]. intros _. exists "", "". repeat split.
           apply IH. by rewrite E.
        -- split; [by intros [? ?]|]. intros (m & s' & Hs & _ & Hl).
           destruct m; [|by rewrite str_app_cons in Hs].
           rewrite str_app_nil_l in Hs. subst s'. apply IH in Hl.
           rewrite E in Hl. by destruct Hl.
      * destruct (Re.re_match p (String c s)) as [r|] eqn:E; simpl.
        -- split; [|eauto]. intros _. exists "", (String c s). repeat split.
           apply IH. by rewrite E.
        -- case_decide as Hc.
           ++ split; [by intros [? ?]|]. intros (m & s' & Hs & Hm & Hl).
              destruct m as [|c' m].
              ** rewrite str_app_nil_l in Hs. subst s'. apply IH in Hl.
                 rewrite E in Hl. by destruct Hl.
              ** rewrite str_app_cons in Hs. injection Hs as <- _.
                 simpl in Hm. by rewrite decide_True in Hm.
           ++ rewrite IHs. split.
              ** intros (m & s' & -> & Hm & Hl). exists (String c m), s'.
                 repeat split; [|done]. simpl. by rewrite decide_False.
              ** intros (m & s' & Hs & Hm & Hl). destruct m as [|c' m].
                 --- rewrite str_app_nil_l in Hs. subst s'. apply IH in Hl.
                     rewrite E in Hl. by destruct Hl.
                 --- rewrite str_app_cons in Hs. injection Hs as <- ->.
                     simpl in Hm. rewrite decide_False in Hm by done.
                     by exists m, s'.
Qed.

(** ** The URL classifier *)

(** [is_namshi_url] accepts exactly the strings that start with the scheme,
    the optional [www.], the domain and a slash, then any run of characters
    other than a line feed, then [/p/]. *)
Lemma is_namshi_url_iff (url : string) :
  is_namshi_url url = true ↔
  ∃ scheme www path rest : string,
    (scheme = "http" ∨ scheme = "https") ∧
    (www = "" ∨ www = "www.") ∧
    PyStr.no_newline path = true ∧
    url = scheme +:+ "://" +:+ www +:+ "namshi.com/" +:+ path +:+ "/p/" +:+ rest.
Proof.
  unfold is_namshi_url.
  transitivity (Re.lang namshi_url_re url).
  { rewrite <- re_match_lang.
    destruct (Re.re_match namshi_url_re url); split; intros H;
      try done; eauto; by destruct H. }
  unfold namshi_url_re. simpl. split.
  - intros (s1 & -> & Hs1).
    assert (∃ scheme s2, (scheme = "http" ∨ scheme = "https") ∧
              "http" +:+ s1 = scheme +:+ s2 ∧
              ∃ s3, s2 = "://" +:+ s3 ∧
                ((∃ s4, s3 = "www." +:+ s4 ∧
                   ∃ s5, s4 = "namshi.com/" +:+ s5 ∧
                   ∃ m s6, s5 = m +:+ s6 ∧ PyStr.no_newline m = true ∧
                   ∃ s7, s6 = "/p/" +:+ s7 ∧ True)
                 ∨ (∃ s5, s3 = "namshi.com/" +:+ s5 ∧
                   ∃ m s6, s5 = m +:+ s6 ∧ PyStr.no_newline m = true ∧
                   ∃ s7, s6 = "/p/" +:+ s7 ∧ True))) as
      (scheme & s2 & Hscheme & -> & s3 & -> & Hrest).
    { destruct Hs1 as [(s2 & -> & Hs2)|Hs2].
      - exists "https", s2. split; [by right|]. split; [done|]. exact Hs2.
      - exists "http", s1. split; [by left|]. split; [done|]. exact Hs2. }
    destruct Hrest as [(s4 & -> & s5 & -> & m & s6 & -> & Hm & s7 & -> & _)
                      |(s5 & -> & m & s6 & -> & Hm & s7 & -> & _)].
    + exists scheme, "www.", m, s7. auto.
    + exists scheme, "", m, s7. auto.
  - intros (scheme & www & path & rest & Hscheme & Hwww & Hpath & ->).
    destruct Hscheme as [-> | ->].
    + exists ("://" +:+ www +:+ "namshi.com/" +:+ path +:+ "/p/" +:+ rest).
      split; [done|]. right.
      exists (www +:+ "namshi.com/" +:+ path +:+ "/p/" +:+ rest).
      split; [done|].
      destruct Hwww as [-> | ->]; [right|left].
      * exists (path +:+ "/p/" +:+ rest). split; [done|].
        exists path, ("/p/" +:+ rest). repeat split; [done|]. by exists rest.
      * exists ("namshi.com/" +:+ path +:+ "/p/" +:+ rest). split; [done|].
        exists (path +:+ "/p/" +:+ rest). split; [done|].
        exists path, ("/p/" +:+ rest). repeat split; [done|]. by exists rest.
    + exists ("s://" +:+ www +:+ "namshi.com/" +:+ path +:+ "/p/" +:+ rest).
      split; [done|]. left.
      exists ("://" +:+ www +:+ "namshi.com/" +:+ path +:+ "/p/" +:+ rest).
      split; [done|].
      exists (www +:+ "namshi.com/" +:+ path +:+ "/p/" +:+ rest).
      split; [done|].
      destruct Hwww as [-> | ->]; [right|left].
      * exists (path +:+ "/p/" +:+ rest). split; [done|].
        exists path, ("/p/" +:+ rest). repeat split; [done|]. by exists rest.
      * exists ("namshi.com/" +:+ path +:+ "/p/" +:+ rest). split; [done|].
        exists (path +:+ "/p/" +:+ rest). split; [done|].
        exists path, ("/p/" +:+ rest). repeat split; [done|]. by exists rest.
Qed.

Lemma path_of_segments (path : string) :
  PyStr.no_newline path = true →
  ∃ segments, segments ≠ [] ∧ Forall path_segment segments ∧
              path_of segments = "/" +:+ path.
Proof.
  induction path as [|c path IH].
  - intros _. exists [""]. split; [done|]. split; [|done].
    by repeat constructor.
  - simpl. case_decide as Hc; [done|]. intros Hpath.
    destruct (IH Hpath) as ([|s0 ss] & Hne & Hsegs & Hjoin); [done|].
    apply Forall_cons in Hsegs as [[Hslash Hnl] Hss].
    simpl in Hjoin. injection Hjoin as Hjoin.
    rewrite !str_app_nil_l in Hjoin.
    destruct (decide (c = "/"%char)) as [-> | Hnot].
    + exists ("" :: s0 :: ss). split; [done|]. split.
      * by repeat constructor.
      * simpl. rewrite <- Hjoin. reflexivity.
    + exists (String c s0 :: ss). split; [done|]. split.
      * constructor; [|done]. split.
        -- rewrite contains_char_cons. by rewrite decide_False by congruence.
        -- simpl. by rewrite decide_False.
      * simpl. rewrite <- Hjoin. reflexivity.
Qed.

Lemma path_of_no_newline (segments : list string) :
  Forall path_segment segments → PyStr.no_newline (path_of segments) = true.
Proof.
  induction 1 as [|s0 ss [_ Hnl] _ IH]; [done|].
  cbn [path_of]. by rewrite !no_newline_app, Hnl, IH.
Qed.

(** Counterexample to C2 as stated: with zero path segments the pattern of
    the claim gives https://www.namshi.com/p/, which is not accepted: the
    slash that ends the domain and the slash that opens [/p/] are two
    characters of the regular expression. *)
Lemma is_namshi_url_rejects_zero_segments :
  ¬ (∀ segments url, retailer_pattern segments url → is_namshi_url url = true).
Proof.
  intros H.
  assert (is_namshi_url "https://www.namshi.com/p/" = true) as Hacc.
  { apply (H []). exists "https", "www.", "". by split_and!; try right. }
  vm_compute in Hacc. discriminate Hacc.
Qed.

(** C2, amended. [is_namshi_url] returns true exactly for the strings that
    begin with http:// or https://, an optional [www.], namshi.com, at least
    one path segment, which may be empty, and the [/p/] marker; what follows
    the marker is free, a line feed included.  It returns false for every
    other string: with zero path segments, as in https://www.namshi.com/p/,
    for another domain, without the marker, or with a line feed before the
    marker. *)
Theorem is_namshi_url_classifies (url : string) :
  is_namshi_url url = true ↔
  ∃ segments, segments ≠ [] ∧ retailer_pattern segments url.
Proof.
  rewrite is_namshi_url_iff. split.
  - intros (scheme & www & path & rest & Hscheme & Hwww & Hpath & ->).
    destruct (path_of_segments path Hpath) as (segments & Hne & Hsegs & Hjoin).
    exists segments. split; [done|]. exists scheme, www, rest.
    split_and!; try done. by rewrite Hjoin.
  - intros ([|s0 ss] & Hne & scheme & www & rest & Hscheme & Hwww & Hsegs & ->);
      [done|].
    exists scheme, www, (s0 +:+ path_of ss), rest. split_and!; try done.
    apply Forall_cons in Hsegs as [[_ Hnl] Hss].
    by rewrite no_newline_app, Hnl, path_of_no_newline.
Qed.

Lemma is_namshi_url_classifies_witness :
  is_namshi_url "https://www.namshi.com/uae-en/buy-shoe/123456/p/" = true ∧
  ¬ (∃ segments, segments ≠ [] ∧
                 retailer_pattern segments "https://www.namshi.com/p/").
Proof.
  split.
  - apply (proj2 (is_namshi_url_classifies _)).
    exists ["uae-en"; "buy-shoe"; "123456"]. split; [discriminate|].
    exists "https", "www.", "". split; [by right|]. split; [by right|].
    split; [|reflexivity]. repeat constructor.
  - intros H. apply (proj2 (is_namshi_url_classifies _)) in H.
    vm_compute in H. discriminate H.
Defined.

(** The text between the domain and the marker may be empty, but the slash
    that ends the domain and the slash that opens [/p/] are two characters;
    a line feed after the marker is accepted, and a line feed before the
    marker stops the match. *)
Example is_namshi_url_edge_cases :
  is_namshi_url "https://www.namshi.com//p/" = true ∧
  is_namshi_url ("https://www.namshi.com/a/p/" +:+ String PyStr.newline "thanks")
  = true ∧
  is_namshi_url "https://www.namshi.com/p/" = false ∧
  is_namshi_url ("https://www.namshi.com/a" +:+ String PyStr.newline "b/p/") = false ∧
  is_namshi_url "https://shop.example.com/a/p/" = false ∧
  is_namshi_url "https://www.namshi.com/uae-en/shoes/" = false.
Proof. by vm_compute. Qed.

(** ** The width rewrite *)

Lemma upgrade_width_cut (image_url : string) :
  upgrade_width image_url =
  Ret (match PyStr.cut "width=" image_url with
       | Some (before, _) => before +:+ "width=800"
       | None => image_url
       end).
Proof.
  unfold upgrade_width, PyStr.contains.
  destruct (PyStr.cut "width=" image_url) as [[before after]|] eqn:E; [|done].
  rewrite split_first, E. done.
Qed.

(** C10. For an image URL that contains [width=], the rewrite returns the
    text before the first occurrence of [width=] followed by [width=800];
    the old value and everything after it are dropped. *)
Theorem upgrade_width_rewrite (image_url : string) :
  PyStr.contains "width=" image_url = true →
  ∃ before after : string,
    image_url = before +:+ "width=" +:+ after ∧
    (∀ b a, image_url = b +:+ "width=" +:+ a →
            (String.length before ≤ String.length b)%nat) ∧
    upgrade_width image_url = Ret (before +:+ "width=800").
Proof.
  intros Hc. rewrite upgrade_width_cut. unfold PyStr.contains in Hc.
  destruct (PyStr.cut "width=" image_url) as [[before after]|] eqn:E; [|done].
  apply cut_Some in E as [-> Hmin]. by exists before, after.
Qed.

Lemma upgrade_width_rewrite_witness :
  ∃ before after : string,
    "http://a.namshicdn.com/p/1.jpg?width=240&quality=80&width=96"
      = before +:+ "width=" +:+ after ∧
    (∀ b a, "http://a.namshicdn.com/p/1.jpg?width=240&quality=80&width=96"
              = b +:+ "width=" +:+ a →
            (String.length before ≤ String.length b)%nat) ∧
    upgrade_width "http://a.namshicdn.com/p/1.jpg?width=240&quality=80&width=96"
      = Ret (before +:+ "width=800").
Proof. apply upgrade_width_rewrite. reflexivity. Defined.

Example upgrade_width_drops_tail :
  upgrade_width "http://a.namshicdn.com/p/1.jpg?width=240&quality=80"
  = Ret "http://a.namshicdn.com/p/1.jpg?width=800".
Proof. reflexivity. Qed.

(** ** Removing duplicates: [dict.fromkeys] *)

Section Fromkeys.

Local Abbreviation insert_key :=
  (fun (d : list string) (k : string) => if decide (k ∈ d) then d else d ++ [k]).

Lemma filter_keeps_all {A} (P : A → Prop) `{!∀ x, Decision (P x)} (l : list A) :
  (∀ x, x ∈ l → P x) → filter P l = l.
Proof.
  induction l as [|y l IH]; intros HP; [done|].
  rewrite filter_cons_True by (apply HP; by left).
  f_equal. apply IH. intros x Hx. apply HP. by right.
Qed.

Lemma filter_not_in_snoc (d l : list string) (x : string) :
  x ∉ d →
  filter (fun y => y ∉ d ++ [x]) l
  = filter (fun y => y ∉ d) (filter (fun y => y ≠ x) l).
Proof.
  intros Hx. rewrite list_filter_filter. apply list_filter_iff.
  intros y. rewrite elem_of_app, list_elem_of_singleton. tauto.
Qed.

Lemma filter_not_in_absorb (d l : list string) (x : string) :
  x ∈ d →
  filter (fun y => y ∉ d) (filter (fun y => y ≠ x) l)
  = filter (fun y => y ∉ d) l.
Proof.
  intros Hx. rewrite list_filter_filter. apply list_filter_iff.
  intros y. split; [tauto|]. intros Hy. split; [done|]. by intros ->.
Qed.

(** The left fold over the keys computes the right-recursive [dedup_first]. *)
Lemma fromkeys_fold (l d : list string) :
  fold_left insert_key l d = d ++ filter (fun y => y ∉ d) (dedup_first l).
Proof.
  revert d. induction l as [|x l IH]; intros d; simpl.
  - by rewrite filter_nil, List.app_nil_r.
  - rewrite IH. case_decide as Hx.
    + rewrite filter_cons_False by tauto. by rewrite filter_not_in_absorb.
    + rewrite filter_cons_True by done.
      rewrite <- List.app_assoc. simpl. by rewrite filter_not_in_snoc.
Qed.

Lemma dict_fromkeys_dedup_first (l : list string) :
  dict_fromkeys l = dedup_first l.
Proof.
  unfold dict_fromkeys. rewrite fromkeys_fold. simpl.
  apply filter_keeps_all. intros x _. apply not_elem_of_nil.
Qed.

Lemma elem_of_dedup_first (l : list string) (x : string) :
  x ∈ dedup_first l ↔ x ∈ l.
Proof.
  induction l as [|y l IH]; simpl; [done|].
  rewrite !elem_of_cons, list_elem_of_filter, IH.
  destruct (decide (x = y)); tauto.
Qed.

Lemma NoDup_dedup_first (l : list string) : NoDup (dedup_first l).
Proof.
  induction l as [|y l IH]; simpl; [constructor|].
  apply NoDup_cons. split; [|by apply NoDup_filter].
  rewrite list_elem_of_filter. tauto.
Qed.

Lemma dedup_first_sublist (l : list string) : dedup_first l `sublist_of` l.
Proof.
  induction l as [|y l IH]; simpl; [done|].
  apply sublist_skip. etrans; [apply sublist_filter|done].
Qed.

Lemma dedup_first_NoDup_id (l : list string) : NoDup l → dedup_first l = l.
Proof.
  induction 1 as [|y l Hy Hl IH]; simpl; [done|].
  rewrite IH. f_equal. apply filter_keeps_all. intros x Hx ->. done.
Qed.

Lemma index_of_Some (l : list string) (x : string) :
  x ∈ l → is_Some (index_of x l).
Proof.
  induction l as [|y l IH]; [by intros ?%elem_of_nil|].
  simpl. case_decide; [eauto|]. rewrite elem_of_cons.
  intros [->|Hx]; [done|]. destruct (IH Hx) as [p ->]. eauto.
Qed.

Lemma StronglySorted_weaken {A} (R R' : A → A → Prop) (l : list A) :
  (∀ a b, a ∈ l → b ∈ l → R a b → R' a b) →
  StronglySorted R l → StronglySorted R' l.
Proof.
  intros HR Hl. induction Hl as [|a l Hl IH Ha]; constructor.
  - apply IH. intros b c Hb Hc. apply HR; by right.
  - rewrite Forall_forall in *. intros b Hb. apply HR; [by left|by right|auto].
Qed.

Lemma StronglySorted_sublist {A} (R : A → A → Prop) (l k : list A) :
  l `sublist_of` k → StronglySorted R k → StronglySorted R l.
Proof.
  induction 1 as [|a l k Hs IH|a l k Hs IH]; intros Hk; [done|..].
  - apply StronglySorted_inv in Hk as [Hk Ha]. constructor; [auto|].
    rewrite Forall_forall in *. intros b Hb. apply Ha.
    by eapply elem_of_sublist.
  - apply StronglySorted_inv in Hk as [Hk _]. auto.
Qed.

(** The entries of [dedup_first l] stand in the order in which the input
    first shows them. *)
Lemma dedup_first_order (l : list string) :
  StronglySorted (seen_before l) (dedup_first l).
Proof.
  induction l as [|x l IH]; simpl; [constructor|].
  constructor.
  - eapply StronglySorted_weaken;
      [|eapply StronglySorted_sublist; [apply sublist_filter|exact IH]].
    intros a b [Ha _]%list_elem_of_filter [Hb _]%list_elem_of_filter
      (p & q & Hp & Hq & Hpq).
    exists (S p), (S q). simpl.
    rewrite !decide_False by done. rewrite Hp, Hq. split_and!; [done..|lia].
  - apply Forall_forall. intros y [Hy Hin]%list_elem_of_filter.
    apply (proj1 (elem_of_dedup_first l y)) in Hin.
    apply index_of_Some in Hin as [q Hq].
    exists 0%nat, (S q). simpl. rewrite decide_True by done.
    rewrite decide_False by done. rewrite Hq. split_and!; [done..|lia].
Qed.

End Fromkeys.

(** ** The image resolver, lines 128-139 *)

Lemma resolve_cases (l : list string) :
  (filter (fun url => likely_product url = true) (dict_fromkeys l) = [] ∧
   resolve l = dict_fromkeys l) ∨
  (filter (fun url => likely_product url = true) (dict_fromkeys l) ≠ [] ∧
   resolve l = filter (fun url => likely_product url = true) (dict_fromkeys l)).
Proof.
  unfold resolve.
  destruct (filter _ (dict_fromkeys l)) as [|u f] eqn:E; [left|right]; done.
Qed.

Lemma dict_fromkeys_nonempty (l : list string) : l ≠ [] → dict_fromkeys l ≠ [].
Proof.
  rewrite dict_fromkeys_dedup_first. by destruct l.
Qed.

Lemma dict_fromkeys_NoDup_id (l : list string) : NoDup l → dict_fromkeys l = l.
Proof. rewrite dict_fromkeys_dedup_first. apply dedup_first_NoDup_id. Qed.

Lemma NoDup_resolve (l : list string) : NoDup (resolve l).
Proof.
  destruct (resolve_cases l) as [[_ ->]|[_ ->]];
    rewrite dict_fromkeys_dedup_first;
    [|apply NoDup_filter]; apply NoDup_dedup_first.
Qed.

(** C5. When the product-image filter would remove every URL, the output is
    the deduplicated list from before the filter; so a non-empty input never
    gives an empty output. *)
Theorem resolve_reverts_when_filter_empties (image_urls : list string) :
  (filter (fun url => likely_product url = true) (dict_fromkeys image_urls) = [] →
   resolve image_urls = dict_fromkeys image_urls) ∧
  (image_urls ≠ [] → resolve image_urls ≠ []).
Proof.
  split.
  - intros Hf. unfold resolve. by rewrite Hf.
  - intros Hne. destruct (resolve_cases image_urls) as [[_ ->]|[Hf ->]];
      [by apply dict_fromkeys_nonempty | done].
Qed.

Lemma resolve_reverts_when_filter_empties_witness :
  resolve ["http://cdn/a.jpg"; "http://cdn/b.jpg"; "http://cdn/a.jpg"]
  = ["http://cdn/a.jpg"; "http://cdn/b.jpg"] ∧
  resolve ["http://cdn/a.jpg"; "http://cdn/b.jpg"; "http://cdn/a.jpg"] ≠ [].
Proof.
  pose proof (resolve_reverts_when_filter_empties
                ["http://cdn/a.jpg"; "http://cdn/b.jpg"; "http://cdn/a.jpg"])
    as [H1 H2].
  split.
  - apply H1. reflexivity.
  - apply H2. discriminate.
Defined.

(** C6. Resolving a resolved list changes nothing. *)
Theorem resolve_idempotent (image_urls : list string) :
  resolve (resolve image_urls) = resolve image_urls.
Proof.
  pose proof (NoDup_resolve image_urls) as Hnd.
  destruct (resolve_cases image_urls) as [[Hf Hr]|[Hf Hr]].
  - rewrite Hr in *. unfold resolve at 1.
    rewrite (dict_fromkeys_NoDup_id _ Hnd). by rewrite Hf.
  - rewrite Hr in *. unfold resolve at 1.
    rewrite (dict_fromkeys_NoDup_id _ Hnd).
    rewrite list_filter_filter.
    erewrite (list_filter_iff _ (fun url => likely_product url = true));
      [|intros x; tauto].
    by destruct (filter _ (dict_fromkeys image_urls)).
Qed.

(** C7. The output has no duplicates; it is either the filtered deduplicated
    list or, as the fallback, the whole deduplicated list; in both cases it
    is a subsequence of the input whose entries stand in the order in which
    the input first shows them. *)
Theorem resolve_no_duplicates_first_seen_order (image_urls : list string) :
  NoDup (resolve image_urls) ∧
  (resolve image_urls
     = filter (fun url => likely_product url = true) (dict_fromkeys image_urls)
   ∨ resolve image_urls = dict_fromkeys image_urls) ∧
  resolve image_urls `sublist_of` image_urls ∧
  StronglySorted (seen_before image_urls) (resolve image_urls).
Proof.
  split; [apply NoDup_resolve|].
  split; [destruct (resolve_cases image_urls) as [[_ ->]|[_ ->]]; auto|].
  assert (resolve image_urls `sublist_of` dedup_first image_urls) as Hsub.
  { destruct (resolve_cases image_urls) as [[_ ->]|[_ ->]];
      rewrite dict_fromkeys_dedup_first; [done|apply sublist_filter]. }
  split.
  - etrans; [exact Hsub|apply dedup_first_sublist].
  - eapply StronglySorted_sublist; [exact Hsub|apply dedup_first_order].
Qed.

Example resolve_example :
  resolve ["http://cdn/x.jpg"; "http://cdn/p/1.jpg"; "http://cdn/x.jpg";
           "http://cdn/PZSKU/2.jpg"; "http://cdn/p/1.jpg"]
  = ["http://cdn/p/1.jpg"; "http://cdn/PZSKU/2.jpg"].
Proof. reflexivity. Qed.

(** ** The third image approach, lines 112-126 *)

(** Counterexample to C8 as stated, on the boundary: an image whose width
    parameter is exactly 200 and whose URL has no marker is left out,
    although 200 is not below 200. *)
Lemma alt_step_excludes_width_200 :
  ¬ (alt_step [] (img_with_src "http://cdn/a.jpg?width=200") = Ret [] ↔
     ∃ w, width_param "http://cdn/a.jpg?width=200" = Ret w ∧ (w < 200)%Z ∧
          has_image_marker "http://cdn/a.jpg?width=200" = false).
Proof.
  intros [Hex _].
  assert (alt_step [] (img_with_src "http://cdn/a.jpg?width=200") = Ret [])
    as Hout by (vm_compute; reflexivity).
  destruct (Hex Hout) as (w & Hw & Hlt & _).
  vm_compute in Hw. injection Hw as <-. lia.
Qed.

(** C8, amended. An image with an absolute-URL source is left out exactly
    when its URL carries no product-image marker and it either has no width
    parameter or its parsed width is at most 200; an image that is kept and
    has a width parameter gets the text from [width=] on replaced by
    [width=800]. *)
Theorem alt_step_filter (image_urls : list string) (img : Soup.element)
    (src : string) :
  Soup.el_attrs img !! "src" = Some src →
  PyStr.startswith src "http" = true →
  (PyStr.contains "width=" src = false →
   alt_step image_urls img
   = Ret (if has_image_marker src then image_urls ++ [src] else image_urls)) ∧
  (∀ w, PyStr.contains "width=" src = true → width_param src = Ret w →
   ∃ before after, PyStr.cut "width=" src = Some (before, after) ∧
     alt_step image_urls img
     = Ret (if bool_decide (w ≤ 200)%Z && negb (has_image_marker src)
            then image_urls
            else image_urls ++ [before +:+ "width=800"])).
Proof.
  intros Hsrc Hhttp. unfold alt_step. rewrite Hsrc, Hhttp. split.
  - intros Hc. unfold wide_enough. rewrite Hc. simpl.
    rewrite upgrade_width_cut. unfold PyStr.contains in Hc.
    destruct (PyStr.cut "width=" src) as [[??]|]; [done|].
    by destruct (has_image_marker src).
  - intros w Hc Hw. unfold wide_enough. rewrite Hc, Hw. simpl.
    rewrite upgrade_width_cut. unfold PyStr.contains in Hc.
    destruct (PyStr.cut "width=" src) as [[before after]|]; [|done].
    exists before, after. split; [done|].
    destruct (has_image_marker src);
      repeat case_bool_decide; simpl; try done; lia.
Qed.

Lemma alt_step_filter_witness :
  alt_step [] (img_with_src "http://cdn/logo.png")
  = Ret [] ∧
  ∃ before after,
    PyStr.cut "width=" "http://cdn/a.jpg?width=201&q=80" = Some (before, after) ∧
    alt_step [] (img_with_src "http://cdn/a.jpg?width=201&q=80")
    = Ret (if bool_decide (201 ≤ 200)%Z
              && negb (has_image_marker "http://cdn/a.jpg?width=201&q=80")
           then [] else [] ++ [before +:+ "width=800"]).
Proof.
  split.
  - apply (proj1 (alt_step_filter [] (img_with_src "http://cdn/logo.png")
                    "http://cdn/logo.png" eq_refl eq_refl)).
    reflexivity.
  - apply (proj2 (alt_step_filter [] (img_with_src "http://cdn/a.jpg?width=201&q=80")
                    "http://cdn/a.jpg?width=201&q=80" eq_refl eq_refl));
      reflexivity.
Defined.

(** A width value that is not a number makes [int] raise, whatever the
    marker; the exception leaves the loop. *)
Lemma alt_step_raises (image_urls : list string) (img : Soup.element)
    (src : string) (e : exn) :
  Soup.el_attrs img !! "src" = Some src →
  PyStr.startswith src "http" = true →
  PyStr.contains "width=" src = true → width_param src = Raise e →
  alt_step image_urls img = Raise e.
Proof.
  intros Hsrc Hhttp Hc Hw. unfold alt_step, wide_enough.
  by rewrite Hsrc, Hhttp, Hc, Hw.
Qed.

(** [int] does not skip the separators U+001C-U+001F, which [str.strip]
    removes, and it refuses a number of more than 4300 digits: such a width
    value is not a number for line 121, and the pass raises. *)
Example alt_step_raises_on_rejected_width :
  PyStr.strip (String "028" "300") = "300" ∧
  PyInt.int (String "028" "300") = Raise ValueError ∧
  alt_step [] (img_with_src ("http://cdn/p/a.jpg?width=" +:+ String "028" "300"))
  = Raise ValueError ∧
  alt_step [] (img_with_src
                 ("http://cdn/p/a.jpg?width="
                  +:+ string_of_list_ascii (replicate 4301 "9"%char)))
  = Raise ValueError ∧
  alt_step [] (img_with_src
                 ("http://cdn/p/a.jpg?width="
                  +:+ string_of_list_ascii (replicate 4300 "9"%char)))
  = Ret ["http://cdn/p/a.jpg?width=800"].
Proof. split_and!; by vm_compute. Qed.

(** ** Extraction never raises *)

Lemma raise_for_status_cases (r : response) :
  ((400 ≤ status_code r < 600)%nat ∧ raise_for_status r = Raise HTTPError) ∨
  (¬ (400 ≤ status_code r < 600)%nat ∧ raise_for_status r = Ret tt).
Proof.
  unfold raise_for_status.
  destruct (Nat.leb_spec 400 (status_code r));
    destruct (Nat.ltb_spec (status_code r) 600); simpl;
    [left|right|right|right]; split; (done || lia).
Qed.

Lemma clean_url_returns (url : string) :
  clean_url url
  = Ret (match PyStr.cut "?" url with Some (before, _) => before | None => url end).
Proof.
  unfold clean_url, PyStr.contains.
  destruct (PyStr.cut "?" url) as [[before after]|] eqn:E; [|done].
  by rewrite split_first, E.
Qed.

Lemma extract_product_info_unfold (web : Web) (url : string) :
  ∃ clean, clean_url url = Ret clean ∧
    extract_product_info web url
    = Ret (match extract_body web clean with
           | Ret r => r
           | Raise _ => error_record
           end).
Proof.
  eexists. split; [apply clean_url_returns|].
  unfold extract_product_info. rewrite clean_url_returns. simpl.
  by destruct (extract_body web _).
Qed.

Lemma extract_name_sentinel (soup : list Soup.node) :
  Soup.select_one soup sel_meta_title = None →
  Soup.select_one soup sel_title_exact = None →
  Soup.select_one soup sel_title_loose = None →
  extract_name soup = Ret "Product name not found".
Proof. intros H1 H2 H3. unfold extract_name. by rewrite H1, H2, H3. Qed.

Lemma extract_price_sentinel (soup : list Soup.node) :
  Soup.select_one soup sel_price_exact = None →
  Soup.select_one soup sel_price_loose = None →
  extract_price soup = "Price not found".
Proof. intros H1 H2. unfold extract_price. by rewrite H1, H2. Qed.




(** ** The handler as a sequence of Bot API calls *)

Section DeliveryFacts.
Variable w : World.

Lemma api_completes (c : call) (done : list call) (m : Message) :
  telegram w done c = Ret m → api w c done = (Ret m, done ++ [c]).
Proof. intros H. unfold api. by rewrite H. Qed.

Lemma api_raises (c : call) (done : list call) (e : exn) :
  telegram w done c = Raise e → api w c done = (Raise e, done).
Proof. intros H. unfold api. by rewrite H. Qed.

Lemma bot_bind_completes {A B} (x : bot A) (f : A → bot B) done a done' :
  x done = (Ret a, done') → (x ≫= f) done = f a done'.
Proof. intros H. unfold mbind, bot_bind. by rewrite H. Qed.

Lemma bot_bind_raises {A B} (x : bot A) (f : A → bot B) done e done' :
  x done = (Raise e, done') → (x ≫= f) done = (Raise e, done').
Proof. intros H. unfold mbind, bot_bind. by rewrite H. Qed.

Lemma send_completes (c : call) (done : list call) :
  delivers w → is_delete c = false →
  (api w c ≫= fun _ => mret ()) done = (Ret (), done ++ [c]).
Proof.
  intros Hw Hc. destruct (Hw done c Hc) as [m Hm].
  by rewrite (bot_bind_completes _ _ _ _ _ (api_completes _ _ _ Hm)).
Qed.

Lemma bot_for_sends (chat : Z) (batch : nat → list InputMediaPhoto)
    (l : list nat) (done : list call) :
  delivers w →
  bot_for l (fun i => api w (SendMediaGroup chat (batch i)) ≫= fun _ => mret ()) done
  = (Ret (), done ++ ((fun i => SendMediaGroup chat (batch i)) <$> l)).
Proof.
  intros Hw. revert done. induction l as [|i l IH]; intros done; simpl.
  - by rewrite List.app_nil_r.
  - rewrite (bot_bind_completes _ _ _ _ _
               (send_completes (SendMediaGroup chat (batch i)) done Hw eq_refl)).
    rewrite IH. by rewrite <- List.app_assoc.
Qed.

Lemma send_media_groups_calls (chat : Z) (media_group : list InputMediaPhoto)
    (done : list call) :
  delivers w →
  send_media_groups w chat media_group done
  = (Ret (), done ++ (SendMediaGroup chat <$> batches_of media_group)).
Proof.
  intros Hw. unfold send_media_groups, batches_of.
  destruct (length media_group <=? 10)%nat.
  - by rewrite (send_completes (SendMediaGroup chat media_group) done Hw eq_refl).
  - rewrite bot_for_sends by done. by rewrite <- list_fmap_compose.
Qed.

(** With a Telegram that completes every call but the deletion, the handler
    sends the "processing" reply and the delivery, and ends with the
    deletion, whose failure is the handler's. *)
Lemma handle_message_calls (update : Update) :
  is_namshi_url (message_text update) = true → delivers w →
  ∃ (processing_msg : Message) (info : product_info),
    telegram w [] (ReplyText processing_text None) = Ret processing_msg ∧
    extract_product_info (web w) (message_text update) = Ret info ∧
    let done := ReplyText processing_text None :: delivery_calls w update info in
    let deletion :=
      DeleteMessage (chat_id processing_msg) (message_id processing_msg) in
    handle_message w update []
    = match telegram w done deletion with
      | Ret _ => (Ret (), done ++ [deletion])
      | Raise e => (Raise e, done)
      end.
Proof.
  intros Hurl Hw.
  destruct (Hw [] (ReplyText processing_text None) eq_refl) as [pm Hpm].
  destruct (extract_product_info_unfold (web w) (message_text update))
    as (clean & _ & Hinfo).
  eexists pm, _. split; [exact Hpm|]. split; [exact Hinfo|].
  set (info := match extract_body (web w) clean with
               | Ret r => r | Raise _ => error_record end) in *.
  intros done deletion.
  unfold handle_message. rewrite Hurl.
  rewrite (bot_bind_completes _ _ _ _ _ (api_completes _ _ _ Hpm)).
  unfold pure at 1.
  erewrite bot_bind_completes; [|by rewrite Hinfo].
  assert (∀ k : unit → bot unit,
    ((match image_urls info with
      | _ :: _ =>
          match build_media_group w info with
          | _ :: _ =>
              send_media_groups w (effective_chat_id update)
                (build_media_group w info) ≫= fun _ =>
              api w (ReplyText "All product information has been sent!" None)
                ≫= fun _ => mret ()
          | [] =>
              api w (ReplyText (details_text info) (Some MARKDOWN)) ≫= fun _ =>
              api w (ReplyText "Failed to download product images." None)
                ≫= fun _ => mret ()
          end
      | [] =>
          api w (ReplyText (details_text info) (Some MARKDOWN)) ≫= fun _ =>
          api w (ReplyText "No product images found." None) ≫= fun _ => mret ()
      end) ≫= k) ([] ++ [ReplyText processing_text None])
    = k () done) as Hdelivery.
  { intros k. apply bot_bind_completes. subst done. unfold delivery_calls.
    destruct (image_urls info) as [|u us].
    - destruct (Hw [ReplyText processing_text None]
                  (ReplyText (details_text info) (Some MARKDOWN)) eq_refl)
        as [m1 Hm1].
      rewrite (bot_bind_completes _ _ _ _ _ (api_completes _ _ _ Hm1)).
      by rewrite send_completes.
    - destruct (build_media_group w info) as [|p ps] eqn:Emg.
      + destruct (Hw [ReplyText processing_text None]
                    (ReplyText (details_text info) (Some MARKDOWN)) eq_refl)
          as [m1 Hm1].
        rewrite (bot_bind_completes _ _ _ _ _ (api_completes _ _ _ Hm1)).
        by rewrite send_completes.
      + erewrite bot_bind_completes; [|by apply send_media_groups_calls].
        rewrite send_completes by done. reflexivity. }
  unfold processing_text in *. rewrite Hdelivery.
  subst deletion. unfold mbind, bot_bind, api.
  destruct (telegram w done _); reflexivity.
Qed.

End DeliveryFacts.

(** ** Batching, lines 208-222 *)

Ltac div_lia := zify; Z.to_euclidean_division_equations; lia.

Lemma range_go_steps (fuel i stop : nat) :
  (stop ≤ i + 10 * fuel)%nat →
  range_go fuel i stop 10
  = (fun k => i + 10 * k)%nat <$> seq 0 ((stop - i + 9) / 10).
Proof.
  revert i. induction fuel as [|fuel IH]; intros i Hfuel; cbn [range_go].
  - replace ((stop - i + 9) / 10)%nat with 0%nat by div_lia. reflexivity.
  - destruct (Nat.ltb_spec i stop) as [Hlt|Hge].
    + rewrite IH by lia.
      replace ((stop - i + 9) / 10)%nat
        with (S ((stop - (i + 10) + 9) / 10)) by div_lia.
      cbn [seq fmap list_fmap]. f_equal; [lia|].
      rewrite <- fmap_S_seq, <- list_fmap_compose.
      apply list_fmap_ext. intros _ k _. unfold compose. lia.
    + replace ((stop - i + 9) / 10)%nat with 0%nat by div_lia. reflexivity.
Qed.

Lemma py_range_tens (n : nat) :
  py_range 0 n 10 = (fun k => 10 * k)%nat <$> seq 0 ((n + 9) / 10).
Proof.
  unfold py_range. rewrite range_go_steps by lia.
  by replace (n - 0)%nat with n by lia.
Qed.

Lemma concat_slices {A} (l : list A) (m : nat) :
  concat ((fun k => take 10 (drop (10 * k) l)) <$> seq 0 m) = take (10 * m) l.
Proof.
  induction m as [|m IH]; [done|].
  rewrite seq_S, fmap_app, concat_app, IH. simpl.
  rewrite List.app_nil_r, take_take_drop. f_equal. lia.
Qed.

Lemma batches_of_slices (media_group : list InputMediaPhoto) :
  media_group ≠ [] →
  batches_of media_group
  = (fun k => take 10 (drop (10 * k) media_group))
      <$> seq 0 ((length media_group + 9) / 10).
Proof.
  intros Hne. unfold batches_of.
  assert (0 < length media_group)%nat by (destruct media_group; simpl; [done|lia]).
  destruct (Nat.leb_spec (length media_group) 10) as [Hle|Hgt].
  - replace ((length media_group + 9) / 10)%nat with 1%nat by div_lia.
    simpl. by rewrite take_ge.
  - rewrite py_range_tens, <- list_fmap_compose.
    apply list_fmap_ext. intros _ k _. simpl. unfold py_slice.
    f_equal. lia.
Qed.

Lemma groups_sent_app (l k : list call) :
  groups_sent (l ++ k) = groups_sent l ++ groups_sent k.
Proof. apply omap_app. Qed.

Lemma groups_sent_groups (chat : Z) (chunks : list (list InputMediaPhoto)) :
  groups_sent (SendMediaGroup chat <$> chunks) = chunks.
Proof.
  unfold groups_sent. induction chunks as [|c cs IH]; [done|].
  simpl. by f_equal.
Qed.

Lemma build_media_group_nil (w : World) (info : product_info) :
  image_urls info = [] → build_media_group w info = [].
Proof. intros H. unfold build_media_group. by rewrite H. Qed.

(** C4. For N > 0 downloaded images and a Telegram that completes every
    call, the handler sends ceil(N/10) media groups; put end to end they are
    the downloaded images in order; none is larger than 10, every group but
    the last holds exactly 10 photos, and the last holds the remaining ones. *)
Theorem handle_message_batches (w : World) (update : Update)
    (info : product_info) :
  accepts_all w →
  is_namshi_url (message_text update) = true →
  extract_product_info (web w) (message_text update) = Ret info →
  build_media_group w info ≠ [] →
  ∃ done : list call,
    handle_message w update [] = (Ret (), done) ∧
    let media_group := build_media_group w info in
    let chunks := groups_sent done in
    concat chunks = media_group ∧
    length chunks = ((length media_group + 9) / 10)%nat ∧
    Forall (fun chunk => (length chunk ≤ 10)%nat) chunks ∧
    (∀ i chunk, chunks !! i = Some chunk → (S i < length chunks)%nat →
                length chunk = 10%nat) ∧
    (∀ chunk, last chunks = Some chunk →
              length chunk
              = (length media_group - 10 * (length chunks - 1))%nat ∧
              (0 < length chunk)%nat).
Proof.
  intros Hw Hurl Hinfo Hmg.
  assert (delivers w) as Hd by (intros done c _; apply Hw).
  destruct (handle_message_calls w update Hurl Hd)
    as (pm & info' & Hpm & Hinfo' & Hrun).
  rewrite Hinfo in Hinfo'. injection Hinfo' as <-.
  cbv zeta in Hrun.
  destruct (Hw (ReplyText processing_text None :: delivery_calls w update info)
              (DeleteMessage (chat_id pm) (message_id pm))) as [ack Hm].
  rewrite Hm in Hrun. eexists. split; [exact Hrun|]. cbv zeta.
  assert (groups_sent
            ((ReplyText processing_text None :: delivery_calls w update info)
             ++ [DeleteMessage (chat_id pm) (message_id pm)])
          = batches_of (build_media_group w info)) as ->.
  { unfold delivery_calls.
    destruct (image_urls info) as [|u us] eqn:Eurls;
      [by rewrite build_media_group_nil in Hmg|].
    destruct (build_media_group w info) as [|p ps]; [done|].
    change (ReplyText processing_text None :: ?l) with
      ([ReplyText processing_text None] ++ l).
    rewrite !groups_sent_app, groups_sent_groups.
    repeat match goal with
           | |- context [groups_sent [?c]] =>
               change (groups_sent [c]) with (@nil (list InputMediaPhoto))
           end.
    by rewrite !List.app_nil_r. }
  rewrite batches_of_slices by done.
  set (mg := build_media_group w info) in *.
  set (m := ((length mg + 9) / 10)%nat).
  assert (0 < length mg)%nat by (destruct mg; simpl; [done|lia]).
  assert (∀ i chunk,
            ((fun k => take 10 (drop (10 * k) mg)) <$> seq 0 m) !! i = Some chunk →
            (i < m)%nat ∧ length chunk = (10 `min` (length mg - 10 * i))%nat)
    as Hlen.
  { intros i chunk Hi. rewrite list_lookup_fmap in Hi.
    destruct (seq 0 m !! i) as [k|] eqn:Ek; [|done].
    apply lookup_seq in Ek as [-> Hk]. simpl in Hi. injection Hi as <-.
    split; [done|]. by rewrite length_take, length_drop. }
  split_and!.
  - rewrite concat_slices. apply take_ge. subst m. div_lia.
  - by rewrite length_fmap, length_seq.
  - apply Forall_lookup. intros i chunk Hi.
    destruct (Hlen i chunk Hi) as [_ ->]. lia.
  - intros i chunk Hi Hlt. rewrite length_fmap, length_seq in Hlt.
    destruct (Hlen i chunk Hi) as [_ ->]. subst m. div_lia.
  - intros chunk Hlast. rewrite last_lookup in Hlast.
    rewrite length_fmap, length_seq in *.
    destruct (Hlen _ chunk Hlast) as [Hi ->].
    replace (Init.Nat.pred m) with (m - 1)%nat by lia.
    subst m. div_lia.
Qed.

Lemma handle_message_batches_witness :
  ∃ done : list call,
    handle_message world_twelve_images sample_update [] = (Ret (), done) ∧
    length <$> groups_sent done = [10; 2]%nat.
Proof.
  edestruct (handle_message_batches world_twelve_images sample_update)
    as (done & Hrun & _).
  - intros done c. eexists. reflexivity.
  - reflexivity.
  - vm_compute. reflexivity.
  - vm_compute. discriminate.
  - exists done. split; [exact Hrun|].
    vm_compute in Hrun. injection Hrun as <-. reflexivity.
Defined.

(** ** Deleting the "processing" message, lines 234-238 *)

(** Counterexample to C9 as stated: when Telegram refuses the deletion, the
    handler raises, after the delivery has gone out. *)
Lemma handle_message_raises_when_delete_fails :
  handle_message world_delete_fails sample_update []
  = (Raise TelegramError,
     [ReplyText processing_text None;
      ReplyText (details_text (ProductInfo "Product name not found"
                                 "Price not found" [] []))
                (Some MARKDOWN);
      ReplyText "No product images found." None]).
Proof. vm_compute. reflexivity. Qed.

(** C9, amended. After either delivery branch completes, the handler's last
    call asks Telegram to delete the "processing" message it sent first; the
    call is not guarded: when it completes the handler returns, and when it
    fails the handler raises that error, the delivery having been sent. *)
Theorem handle_message_deletion_unguarded (w : World) (update : Update) :
  is_namshi_url (message_text update) = true → delivers w →
  ∃ (processing_msg : Message) (info : product_info),
    telegram w [] (ReplyText processing_text None) = Ret processing_msg ∧
    extract_product_info (web w) (message_text update) = Ret info ∧
    let done := ReplyText processing_text None :: delivery_calls w update info in
    let deletion :=
      DeleteMessage (chat_id processing_msg) (message_id processing_msg) in
    (∀ m, telegram w done deletion = Ret m →
          handle_message w update [] = (Ret (), done ++ [deletion])) ∧
    (∀ e, telegram w done deletion = Raise e →
          handle_message w update [] = (Raise e, done)).
Proof.
  intros Hurl Hw.
  destruct (handle_message_calls w update Hurl Hw)
    as (pm & info & Hpm & Hinfo & Hrun).
  exists pm, info. split; [exact Hpm|]. split; [exact Hinfo|].
  cbv zeta in *. split; intros x Hx; by rewrite Hx in Hrun.
Qed.

Lemma handle_message_deletion_unguarded_witness :
  ∃ done : list call,
    handle_message world_delete_fails sample_update []
    = (Raise TelegramError, done).
Proof.
  destruct (handle_message_deletion_unguarded world_delete_fails sample_update)
    as (pm & info & Hpm & Hinfo & _ & Hraise).
  - reflexivity.
  - intros done c Hc. exists sent_message. simpl. by rewrite Hc.
  - eexists. apply Hraise. reflexivity.
Defined.

(** ** The caption, lines 190-228 *)

Lemma build_media_group_fold (w : World) (info : product_info)
    (l : list (nat * string)) (acc : list InputMediaPhoto) :
  fold_left
    (fun media_group '(i, image_url) =>
       match download_image w image_url with
       | Some ((_ :: _) as image_data) =>
           media_group ++
           [{| media := image_data;
               caption := if decide (i = 0%nat) then details_text info else "";
               parse_mode := if decide (i = 0%nat) then Some MARKDOWN else None |}]
       | _ => media_group
       end) l acc
  = acc ++ omap (fun '(i, image_url) => photo_at info w i image_url) l.
Proof.
  revert acc. induction l as [|[i u] l IH]; intros acc; simpl.
  - by rewrite List.app_nil_r.
  - rewrite IH. unfold photo_at.
    destruct (download_image w u) as [[|b bs]|]; simpl;
      [done| by rewrite <- List.app_assoc |done].
Qed.

(** The media group is made of the photos of the images that could be
    downloaded, each built from its index in [image_urls]. *)
Lemma build_media_group_photos (w : World) (info : product_info) :
  build_media_group w info
  = omap (fun '(i, image_url) => photo_at info w i image_url)
         (enumerate (image_urls info)).
Proof. unfold build_media_group. by rewrite build_media_group_fold. Qed.

Lemma photo_at_later_uncaptioned (w : World) (info : product_info)
    (l : list string) (f : nat → nat) :
  (∀ i, f i ≠ 0%nat) →
  Forall (fun p => caption p = "")
         (omap (fun '(i, image_url) => photo_at info w i image_url)
               (imap (fun i u => (f i, u)) l)).
Proof.
  revert f. induction l as [|u l IH]; intros f Hf; [constructor|].
  simpl. unfold photo_at at 1.
  destruct (download_image w u) as [[|b bs]|]; simpl;
    try (apply (IH (f ∘ S)); intros i; apply Hf).
  constructor; [by rewrite decide_False by apply Hf|].
  apply (IH (f ∘ S)). intros i. apply Hf.
Qed.

(** When the first image downloads, it carries the caption and no other
    photo does. *)
Lemma caption_on_first_image (w : World) (info : product_info)
    (u : string) (us : list string) (p : InputMediaPhoto) :
  image_urls info = u :: us → photo_at info w 0 u = Some p →
  ∃ ps, build_media_group w info = p :: ps ∧
        caption p = details_text info ∧
        Forall (fun q => caption q = "") ps.
Proof.
  intros Hurls Hp. rewrite build_media_group_photos, Hurls.
  unfold enumerate. simpl. rewrite Hp. eexists. split; [done|]. split.
  - unfold photo_at in Hp.
    destruct (download_image w u) as [[|b bs]|]; [done| |done].
    by injection Hp as <-.
  - apply (photo_at_later_uncaptioned w info us S). lia.
Qed.

(** When the first image does not download, no photo carries the caption,
    however many of the other images download. *)
Lemma caption_lost_with_first_image (w : World) (info : product_info)
    (u : string) (us : list string) :
  image_urls info = u :: us → photo_at info w 0 u = None →
  Forall (fun q => caption q = "") (build_media_group w info).
Proof.
  intros Hurls Hp. rewrite build_media_group_photos, Hurls.
  unfold enumerate. simpl. rewrite Hp.
  apply (photo_at_later_uncaptioned w info us S). lia.
Qed.

(** C1, at the failing input: the first of two images cannot be downloaded,
    the second can.  One photo is delivered; it has no caption, and the
    product details are not sent as a text message either. *)
Theorem handle_message_caption_lost :
  let info := ProductInfo "Product name not found" "Price not found" []
                ["https://cdn/p/1.jpg"; "https://cdn/p/2.jpg"] in
  let done := (handle_message world_first_image_down sample_update []).2 in
  extract_product_info (web world_first_image_down) (message_text sample_update)
  = Ret info ∧
  handle_message world_first_image_down sample_update []
  = (Ret (),
     [ReplyText processing_text None;
      SendMediaGroup 7 [{| media := [Byte.x89; Byte.x50];
                           caption := "";
                           parse_mode := None |}];
      ReplyText "All product information has been sent!" None;
      DeleteMessage 7 41]) ∧
  length (photos_sent done) = 1%nat ∧
  Forall (fun photo => caption photo ≠ details_text info) (photos_sent done) ∧
  Forall (fun c => is_text (details_text info) c = false) done.
Proof.
  cbv zeta. split; [vm_compute; reflexivity|].
  split; [vm_compute; reflexivity|].
  split; [vm_compute; reflexivity|].
  split.
  - vm_compute. repeat constructor. discriminate.
  - vm_compute. repeat constructor.
Qed.

(** * Further properties of [bot.py] *)

(** ** The URL classifier, lines 41-43 *)

Lemma str_append_assoc (s t u : string) : (s +:+ t) +:+ u = s +:+ (t +:+ u).
Proof. induction s as [|c s IH]; [done|]. by rewrite !str_app_cons, IH. Qed.

Lemma contains_intro (sub s before after : string) :
  s = before +:+ sub +:+ after → PyStr.contains sub s = true.
Proof.
  intros Hs. unfold PyStr.contains.
  destruct (PyStr.cut sub s) as [[b a]|] eqn:E; [done|].
  by eapply cut_None in E.
Qed.

Lemma startswith_intro (p r : string) : PyStr.startswith (p +:+ r) p = true.
Proof.
  unfold PyStr.startswith.
  by rewrite (proj2 (strip_prefix_spec p (p +:+ r) r) eq_refl).
Qed.

(** X1. The pattern is anchored at the start only: whatever follows an
    accepted text, the whole is accepted too. *)
Theorem is_namshi_url_extends (url tail : string) :
  is_namshi_url url = true → is_namshi_url (url +:+ tail) = true.
Proof.
  rewrite !is_namshi_url_iff.
  intros (scheme & www & path & rest & Hs & Hw & Hp & ->).
  exists scheme, www, path, (rest +:+ tail). split_and!; try done.
  by rewrite !str_append_assoc.
Qed.

Lemma is_namshi_url_extends_witness :
  is_namshi_url ("https://www.namshi.com/uae-en/buy-shoe/123456/p/"
                 +:+ "?utm_source=app please") = true.
Proof. apply is_namshi_url_extends. reflexivity. Defined.

(** X2. An accepted text begins with the scheme itself, so a link preceded
    by a space or by other words is not accepted; and it holds the domain
    followed by a slash and the [/p/] marker. *)
Theorem is_namshi_url_necessary (url : string) :
  is_namshi_url url = true →
  (PyStr.startswith url "http://" = true
   ∨ PyStr.startswith url "https://" = true) ∧
  PyStr.contains "namshi.com/" url = true ∧
  PyStr.contains "/p/" url = true.
Proof.
  rewrite is_namshi_url_iff.
  intros (scheme & www & path & rest & Hs & Hw & Hp & ->). split_and!.
  - destruct Hs as [-> | ->]; [left|right].
    + apply (startswith_intro "http://").
    + apply (startswith_intro "https://").
  - apply (contains_intro _ _ (scheme +:+ "://" +:+ www)
             (path +:+ "/p/" +:+ rest)).
    by rewrite !str_append_assoc.
  - apply (contains_intro _ _ (scheme +:+ "://" +:+ www +:+ "namshi.com/" +:+ path)
             rest).
    by rewrite !str_append_assoc.
Qed.

Lemma is_namshi_url_necessary_witness :
  (PyStr.startswith "http://namshi.com/a/p/" "http://" = true
   ∨ PyStr.startswith "http://namshi.com/a/p/" "https://" = true) ∧
  PyStr.contains "namshi.com/" "http://namshi.com/a/p/" = true ∧
  PyStr.contains "/p/" "http://namshi.com/a/p/" = true.
Proof. apply is_namshi_url_necessary. reflexivity. Defined.

(** ** The record of [extract_product_info], lines 45-154 *)

(** What a returned record is: the record of the [except] branch, or the
    one built from a page that was fetched and read without an exception. *)
Lemma extract_product_info_record (web : Web) (url : string) (r : product_info) :
  extract_product_info web url = Ret r →
  r = error_record ∨
  ∃ clean response soup name image_urls,
    clean_url url = Ret clean ∧
    requests_get web clean headers = Ret response ∧
    raise_for_status response = Ret tt ∧
    html_parser web (text response) = Ret soup ∧
    extract_name soup = Ret name ∧
    extract_images soup = Ret image_urls ∧
    r = ProductInfo name (extract_price soup) (extract_sizes soup)
                    (resolve image_urls).
Proof.
  destruct (extract_product_info_unfold web url) as (clean & Hclean & ->).
  intros [= <-]. unfold extract_body.
  destruct (requests_get web clean headers) as [response|] eqn:Hget;
    simpl; [|by left].
  destruct (raise_for_status response) as [[]|] eqn:Hst; simpl; [|by left].
  destruct (html_parser web (text response)) as [soup|] eqn:Hsoup;
    simpl; [|by left].
  destruct (extract_name soup) as [name|] eqn:Hname; simpl; [|by left].
  destruct (extract_images soup) as [image_urls|] eqn:Himg; simpl; [|by left].
  right. by exists clean, response, soup, name, image_urls.
Qed.

Lemma cut_question_mark (base query : string) :
  PyStr.contains "?" base = false →
  PyStr.cut "?" (base +:+ "?" +:+ query) = Some (base, query).
Proof.
  unfold PyStr.contains. induction base as [|c base IH]; [done|].
  rewrite str_app_cons. simpl.
  case_decide as Hc; [done|].
  destruct (PyStr.cut "?" base) as [[??]|] eqn:E; [done|].
  intros _. by rewrite IH.
Qed.

(** X3. The query string takes no part: a URL followed by [?] and any text
    gives the record of the URL alone. *)
Theorem extract_product_info_ignores_query (web : Web) (base query : string) :
  PyStr.contains "?" base = false →
  extract_product_info web (base +:+ "?" +:+ query)
  = extract_product_info web base.
Proof.
  intros Hbase. unfold extract_product_info.
  rewrite !clean_url_returns, (cut_question_mark _ _ Hbase).
  unfold PyStr.contains in Hbase.
  by destruct (PyStr.cut "?" base) as [[??]|].
Qed.

Lemma extract_product_info_ignores_query_witness :
  extract_product_info (web_serving page_two_images [Byte.x89])
    ("https://www.namshi.com/uae-en/buy-shoe/123456/p/" +:+ "?" +:+ "ref=home&x=1")
  = extract_product_info (web_serving page_two_images [Byte.x89])
      "https://www.namshi.com/uae-en/buy-shoe/123456/p/".
Proof. apply extract_product_info_ignores_query. reflexivity. Defined.

(** X4. A page answered with a status from 400 to 599 gives the record of
    the [except] branch, whatever its body holds. *)
Theorem extract_product_info_error_status (web : Web) (url clean : string)
    (response : response) :
  clean_url url = Ret clean →
  requests_get web clean headers = Ret response →
  (400 ≤ status_code response < 600)%nat →
  extract_product_info web url = Ret error_record.
Proof.
  intros Hclean Hget Hst. unfold extract_product_info, extract_body.
  rewrite Hclean. simpl. rewrite Hget. simpl. unfold raise_for_status.
  destruct (Nat.leb_spec 400 (status_code response)); [|lia].
  destruct (Nat.ltb_spec (status_code response) 600); [|lia]. done.
Qed.

Lemma extract_product_info_error_status_witness :
  extract_product_info
    {| requests_get := fun _ _ => Ret (Response 404 "<h1 class=productTitle>Shoe</h1>" []);
       html_parser := fun _ => Ret page_two_images |}
    "https://www.namshi.com/uae-en/buy-shoe/123456/p/?x=1"
  = Ret error_record.
Proof.
  apply (extract_product_info_error_status _ _
           "https://www.namshi.com/uae-en/buy-shoe/123456/p/"
           (Response 404 "<h1 class=productTitle>Shoe</h1>" []));
    [reflexivity|reflexivity|simpl; lia].
Defined.

(** X5. No image URL occurs twice in a returned record. *)
Theorem extract_product_info_images_distinct (web : Web) (url : string)
    (r : product_info) :
  extract_product_info web url = Ret r → NoDup (image_urls r).
Proof.
  intros [-> | (clean & response & soup & name & urls & _ & _ & _ & _ & _ & _ & ->)]
    %extract_product_info_record; simpl.
  - constructor.
  - apply NoDup_resolve.
Qed.

Lemma extract_product_info_images_distinct_witness :
  NoDup (image_urls
    (extracted (world_twelve_images) sample_update)).
Proof.
  apply (extract_product_info_images_distinct (web world_twelve_images)
           (message_text sample_update)).
  reflexivity.
Defined.

(** ** Every image URL of a record is absolute, lines 93-126 *)

Lemma for_each_invariant {A S} (P : S → Prop) (step : S → A → outcome S)
    (l : list A) (acc r : S) :
  (∀ acc x acc', P acc → step acc x = Ret acc' → P acc') →
  P acc → for_each l step acc = Ret r → P r.
Proof.
  intros Hstep. revert acc. induction l as [|x l IH]; intros acc Hacc; simpl.
  - by intros [= <-].
  - destruct (step acc x) as [acc'|] eqn:E; simpl; [|done].
    apply IH. by eapply Hstep.
Qed.

(** The text before the first [width=] of a URL that begins with [http]
    still begins with [http]. *)
Lemma upgrade_width_absolute (src image_url : string) :
  PyStr.startswith src "http" = true →
  upgrade_width src = Ret image_url →
  PyStr.startswith image_url "http" = true.
Proof.
  rewrite upgrade_width_cut. unfold PyStr.startswith at 1.
  destruct (PyStr.strip_prefix "http" src) as [rest|] eqn:E; [|done].
  apply strip_prefix_spec in E. subst src. intros _ [= <-].
  change ("http" +:+ rest)
    with (String "h" (String "t" (String "t" (String "p" rest)))).
  cbn [PyStr.cut PyStr.strip_prefix]. repeat case_decide; try done.
  change ("" +:+ rest) with rest.
  destruct (PyStr.cut "width=" rest) as [[before after]|]; reflexivity.
Qed.

Lemma gallery_step_absolute (acc acc' : list string) (img : Soup.element) :
  absolute acc → gallery_step acc img = Ret acc' → absolute acc'.
Proof.
  unfold gallery_step, absolute. intros Hacc.
  destruct (Soup.el_attrs img !! "src") as [src|]; [|by intros [= <-]].
  destruct (PyStr.startswith src "http") eqn:Hsrc; [|by intros [= <-]].
  destruct (upgrade_width src) as [u|] eqn:Hu; simpl; [|done].
  intros [= <-]. apply Forall_app. split; [done|].
  repeat constructor. by eapply upgrade_width_absolute.
Qed.

Lemma meta_step_absolute (acc acc' : list string) (img : Soup.element) :
  absolute acc → meta_step acc img = Ret acc' → absolute acc'.
Proof.
  unfold meta_step, absolute. intros Hacc.
  destruct (Soup.el_attrs img !! "content") as [c|]; [|by intros [= <-]].
  destruct (PyStr.startswith c "http") eqn:Hc; simpl; [|by intros [= <-]].
  destruct (negb _); [|by intros [= <-]].
  destruct (_ || _); intros [= <-]; [|done].
  apply Forall_app. split; [done|]. by repeat constructor.
Qed.

Lemma alt_step_absolute (acc acc' : list string) (img : Soup.element) :
  absolute acc → alt_step acc img = Ret acc' → absolute acc'.
Proof.
  unfold alt_step, absolute. intros Hacc.
  destruct (Soup.el_attrs img !! "src") as [src|]; [|by intros [= <-]].
  destruct (PyStr.startswith src "http") eqn:Hsrc; [|by intros [= <-]].
  destruct (wide_enough src) as [wide|]; simpl; [|done].
  destruct (wide || has_image_marker src); [|by intros [= <-]].
  destruct (upgrade_width src) as [u|] eqn:Hu; simpl; [|done].
  intros [= <-]. apply Forall_app. split; [done|].
  repeat constructor. by eapply upgrade_width_absolute.
Qed.

Lemma extract_images_absolute (soup : list Soup.node) (image_urls : list string) :
  extract_images soup = Ret image_urls → absolute image_urls.
Proof.
  unfold extract_images.
  destruct (for_each (Soup.select soup sel_gallery) gallery_step [])
    as [l1|] eqn:E1; simpl; [|done].
  assert (absolute l1) as H1.
  { eapply (for_each_invariant absolute); [|constructor|exact E1].
    intros. by eapply gallery_step_absolute. }
  destruct l1 as [|u1 l1].
  - destruct (for_each (Soup.select soup sel_meta_image) meta_step [])
      as [l2|] eqn:E2; simpl; [|done].
    assert (absolute l2) as H2.
    { eapply (for_each_invariant absolute); [|constructor|exact E2].
      intros. by eapply meta_step_absolute. }
    destruct l2 as [|u2 l2]; [|by intros [= <-]].
    intros E3. eapply (for_each_invariant absolute); [|constructor|exact E3].
    intros. by eapply alt_step_absolute.
  - simpl. by intros [= <-].
Qed.

Lemma resolve_sublist (l : list string) : resolve l `sublist_of` l.
Proof.
  destruct (resolve_cases l) as [[_ ->]|[_ ->]];
    rewrite dict_fromkeys_dedup_first.
  - apply dedup_first_sublist.
  - etrans; [apply sublist_filter|apply dedup_first_sublist].
Qed.

(** X6. Every image URL of a returned record begins with [http]: a relative
    [src] is never collected, and the width rewrite keeps the beginning. *)
Theorem extract_product_info_images_absolute (web : Web) (url : string)
    (r : product_info) :
  extract_product_info web url = Ret r →
  Forall (fun image_url => PyStr.startswith image_url "http" = true)
         (image_urls r).
Proof.
  intros [-> | (clean & response & soup & name & urls & _ & _ & _ & _ & _ & Himg & ->)]
    %extract_product_info_record; simpl.
  - constructor.
  - apply extract_images_absolute in Himg. unfold absolute in Himg.
    rewrite Forall_forall in *. intros u Hu. apply Himg.
    by eapply elem_of_sublist; [|apply resolve_sublist].
Qed.

Lemma extract_product_info_images_absolute_witness :
  Forall (fun image_url => PyStr.startswith image_url "http" = true)
         (image_urls (extracted world_twelve_images sample_update)).
Proof.
  apply (extract_product_info_images_absolute (web world_twelve_images)
           (message_text sample_update)).
  reflexivity.
Defined.

(** ** The text fields of a record are stripped, lines 63-87 *)

Lemma lstrip_length (s : string) :
  (String.length (PyStr.lstrip s) ≤ String.length s)%nat.
Proof.
  induction s as [|c s IH]; simpl; [lia|].
  destruct (PyStr.isspace c); simpl; lia.
Qed.

Lemma lstrip_idem (s : string) : PyStr.lstrip (PyStr.lstrip s) = PyStr.lstrip s.
Proof.
  induction s as [|c s IH]; simpl; [done|].
  destruct (PyStr.isspace c) eqn:E; [done|]. simpl. by rewrite E.
Qed.

Lemma rstrip_idem (s : string) : PyStr.rstrip (PyStr.rstrip s) = PyStr.rstrip s.
Proof.
  induction s as [|c s IH]; simpl; [done|].
  destruct (PyStr.rstrip s) as [|d r] eqn:E.
  - destruct (PyStr.isspace c) eqn:Ec; simpl; [done|]. by rewrite Ec.
  - change (PyStr.rstrip (String c (String d r)))
      with (match PyStr.rstrip (String d r) with
            | EmptyString =>
                if PyStr.isspace c then EmptyString else String c EmptyString
            | r0 => String c r0
            end).
    by rewrite IH.
Qed.

Lemma lstrip_rstrip (t : string) :
  PyStr.lstrip t = t → PyStr.lstrip (PyStr.rstrip t) = PyStr.rstrip t.
Proof.
  destruct t as [|c t]; [done|]. simpl.
  destruct (PyStr.isspace c) eqn:Ec.
  - intros Ht. pose proof (lstrip_length t) as Hlen.
    rewrite Ht in Hlen. simpl in Hlen. lia.
  - intros _. destruct (PyStr.rstrip t); simpl; by rewrite Ec.
Qed.

Lemma strip_idem (s : string) : PyStr.strip (PyStr.strip s) = PyStr.strip s.
Proof.
  unfold PyStr.strip.
  by rewrite (lstrip_rstrip _ (lstrip_idem s)), rstrip_idem.
Qed.

Lemma extract_name_stripped (soup : list Soup.node) (name : string) :
  extract_name soup = Ret name → PyStr.strip name = name.
Proof.
  unfold extract_name.
  assert (∀ o : option Soup.element,
    match o with
    | Some h => mret (PyStr.strip (Soup.el_text h))
    | None => mret "Product name not found"
    end = Ret name → PyStr.strip name = name) as Hheading.
  { intros [h|]; intros [= <-]; [apply strip_idem|reflexivity]. }
  destruct (Soup.select_one soup sel_meta_title) as [meta_title|];
    [|apply Hheading].
  destruct (Soup.el_attrs meta_title !! "content") as [c|]; [|apply Hheading].
  rewrite split_first. simpl. intros [= <-]. apply strip_idem.
Qed.

Lemma extract_price_stripped (soup : list Soup.node) :
  PyStr.strip (extract_price soup) = extract_price soup.
Proof.
  unfold extract_price. destruct (or_else_one _ _); [apply strip_idem|done].
Qed.

(** X7. The name, the price and every size of a returned record carry no
    white space at either end: each is left unchanged by [strip]. *)
Theorem extract_product_info_fields_stripped (web : Web) (url : string)
    (r : product_info) :
  extract_product_info web url = Ret r →
  PyStr.strip (name r) = name r ∧
  PyStr.strip (price r) = price r ∧
  Forall (fun size => PyStr.strip size = size) (sizes r).
Proof.
  intros [-> | (clean & response & soup & n & urls & _ & _ & _ & _ & Hname & _ & ->)]
    %extract_product_info_record; simpl.
  - split_and!; [done|done|constructor].
  - split_and!.
    + by eapply extract_name_stripped.
    + apply extract_price_stripped.
    + unfold extract_sizes. apply Forall_fmap, Forall_forall.
      intros size_element _. apply strip_idem.
Qed.

Lemma extract_product_info_fields_stripped_witness :
  PyStr.strip (name (extracted world_twelve_images sample_update))
  = name (extracted world_twelve_images sample_update) ∧
  PyStr.strip (price (extracted world_twelve_images sample_update))
  = price (extracted world_twelve_images sample_update) ∧
  Forall (fun size => PyStr.strip size = size)
         (sizes (extracted world_twelve_images sample_update)).
Proof.
  apply (extract_product_info_fields_stripped (web world_twelve_images)
           (message_text sample_update)).
  reflexivity.
Defined.

(** ** One malformed width loses the whole record, lines 117-126, 147-154 *)

Lemma for_each_raises {A S} (step : S → A → outcome S) (l : list A) (x : A)
    (acc : S) :
  x ∈ l → (∀ acc, ∃ e, step acc x = Raise e) →
  ∃ e, for_each l step acc = Raise e.
Proof.
  intros Hx Hraise. revert acc.
  induction l as [|y l IH]; intros acc; [by apply elem_of_nil in Hx|].
  simpl. destruct (step acc y) as [acc'|e] eqn:E; simpl; [|by exists e].
  apply elem_of_cons in Hx as [<- | Hx]; [|by apply IH].
  destruct (Hraise acc) as [e He]. congruence.
Qed.

(** X8. When the gallery pass and the [og:image] pass collect nothing and
    one of the images selected by alt text has an absolute [src] whose width
    value is not a number, the record is the one of the [except] branch:
    the name, the price and the sizes read before are lost with it. *)
Theorem extract_product_info_malformed_width (web : Web) (url clean : string)
    (response : response) (soup : list Soup.node) (img : Soup.element)
    (src : string) (e : exn) :
  clean_url url = Ret clean →
  requests_get web clean headers = Ret response →
  html_parser web (text response) = Ret soup →
  for_each (Soup.select soup sel_gallery) gallery_step [] = Ret [] →
  for_each (Soup.select soup sel_meta_image) meta_step [] = Ret [] →
  img ∈ Soup.select soup sel_alt_images →
  Soup.el_attrs img !! "src" = Some src →
  PyStr.startswith src "http" = true →
  PyStr.contains "width=" src = true →
  width_param src = Raise e →
  extract_product_info web url = Ret error_record.
Proof.
  intros Hclean Hget Hsoup Hgallery Hmeta Himg Hsrc Hhttp Hwidth Hparam.
  unfold extract_product_info. rewrite Hclean. simpl.
  unfold extract_body. rewrite Hget. simpl.
  destruct (raise_for_status response) as [[]|]; simpl; [|done].
  rewrite Hsoup. simpl.
  destruct (extract_name soup) as [n|]; simpl; [|done].
  unfold extract_images. rewrite Hgallery. simpl. rewrite Hmeta. simpl.
  destruct (for_each_raises alt_step _ img [] Himg) as [e' ->]; [|done].
  intros acc. exists e. by eapply alt_step_raises.
Qed.

Lemma extract_product_info_malformed_width_witness :
  length (Soup.select page_bad_width sel_gallery) = 1%nat ∧
  length (Soup.select page_bad_width sel_meta_image) = 1%nat ∧
  extract_name page_bad_width = Ret "Running Shoe" ∧
  extract_price page_bad_width = "AED 199" ∧
  extract_product_info (web_serving page_bad_width [])
    "https://www.namshi.com/uae-en/buy-shoe/123456/p/" = Ret error_record.
Proof.
  split; [reflexivity|]. split; [reflexivity|].
  split; [reflexivity|]. split; [reflexivity|].
  eapply (extract_product_info_malformed_width (web_serving page_bad_width []) _
            "https://www.namshi.com/uae-en/buy-shoe/123456/p/" _ page_bad_width
            (Soup.Element "img"
               {[ "alt" := "product"; "src" := "http://cdn/a.jpg?width=abc" ]} "")
            "http://cdn/a.jpg?width=abc" ValueError);
    try reflexivity.
  vm_compute. left.
Defined.

(** ** The product-image filter, lines 128-139 *)

Lemma elem_of_dict_fromkeys (l : list string) (u : string) :
  u ∈ dict_fromkeys l ↔ u ∈ l.
Proof. rewrite dict_fromkeys_dedup_first. apply elem_of_dedup_first. Qed.

(** X9. A URL that shows one of the product patterns is never dropped; and
    as soon as one URL of the list shows one, every URL that is kept does:
    the others are dropped, the two kinds are never mixed. *)
Theorem resolve_keeps_likely_products (image_urls : list string) (url : string) :
  url ∈ image_urls → likely_product url = true →
  url ∈ resolve image_urls ∧
  Forall (fun kept => likely_product kept = true) (resolve image_urls).
Proof.
  intros Hin Hlikely.
  assert (url ∈ filter (fun u => likely_product u = true)
                       (dict_fromkeys image_urls)) as Hf.
  { apply list_elem_of_filter. split; [done|]. by apply elem_of_dict_fromkeys. }
  destruct (resolve_cases image_urls) as [[Hnil _]|[_ ->]].
  - rewrite Hnil in Hf. by apply elem_of_nil in Hf.
  - split; [done|]. apply Forall_forall. intros kept Hk.
    by apply list_elem_of_filter in Hk as [? _].
Qed.

Lemma resolve_keeps_likely_products_witness :
  "https://cdn/p/1.jpg" ∈ resolve ["https://cdn/banner.jpg"; "https://cdn/p/1.jpg"] ∧
  Forall (fun kept => likely_product kept = true)
         (resolve ["https://cdn/banner.jpg"; "https://cdn/p/1.jpg"]).
Proof.
  apply resolve_keeps_likely_products; [|reflexivity].
  apply list_elem_of_In. simpl. right. left. reflexivity.
Defined.

(** ** [download_image], lines 156-164 *)

(** X10. [download_image] gives bytes exactly when the request is answered
    with a status outside 400-599, and then the body of the answer; a
    request that raises and an error status both give [None]. *)
Theorem download_image_some (w : World) (url : string) (data : list Byte.byte) :
  download_image w url = Some data ↔
  ∃ response, requests_get (web w) url [] = Ret response ∧
              ¬ (400 ≤ status_code response < 600)%nat ∧
              content response = data.
Proof.
  unfold download_image.
  destruct (requests_get (web w) url []) as [response|e]; simpl.
  - destruct (raise_for_status_cases response) as [[Hst ->]|[Hst ->]]; simpl.
    + split; [done|]. by intros (r & [= <-] & Hno & _).
    + split.
      * intros [= <-]. by exists response.
      * by intros (r & [= <-] & _ & <-).
  - split; [done|]. by intros (r & [=] & _).
Qed.

(** ** The handler against its plan, lines 166-242 *)

Section PlanFacts.
Variable w : World.

Lemma bot_bind_ext {A B} (x y : bot A) (f : A → bot B) (sofar : list call) :
  x sofar = y sofar → (x ≫= f) sofar = (y ≫= f) sofar.
Proof. intros H. unfold mbind, bot_bind. by rewrite H. Qed.

Lemma perform_app (cs1 cs2 : list call) (sofar : list call) :
  perform w (cs1 ++ cs2) sofar
  = (perform w cs1 ≫= fun _ => perform w cs2) sofar.
Proof.
  revert sofar. induction cs1 as [|c cs1 IH]; intros sofar; [done|].
  simpl. unfold mbind, bot_bind.
  destruct (api w c sofar) as [[m|e] sofar']; [apply IH|done].
Qed.

Lemma bot_for_perform {A} (l : list A) (f : A → call) (sofar : list call) :
  bot_for l (fun i => api w (f i) ≫= fun _ => mret ()) sofar
  = perform w (f <$> l) sofar.
Proof.
  revert sofar. induction l as [|i l IH]; intros sofar; [done|].
  simpl. unfold mbind, bot_bind.
  destruct (api w (f i) sofar) as [[m|e] sofar']; [apply IH|done].
Qed.

Lemma send_media_groups_perform (chat : Z) (media_group : list InputMediaPhoto)
    (sofar : list call) :
  send_media_groups w chat media_group sofar
  = perform w (SendMediaGroup chat <$> batches_of media_group) sofar.
Proof.
  unfold send_media_groups, batches_of.
  destruct (length media_group <=? 10)%nat; [done|].
  rewrite (bot_for_perform _
             (fun i => SendMediaGroup chat (py_slice media_group i (i + 10)))).
  by rewrite <- list_fmap_compose.
Qed.

(** The handler is the run of its plan. *)
Lemma handle_message_perform (update : Update) :
  handle_message w update [] = perform w (handler_plan w update) [].
Proof.
  unfold handle_message, handler_plan, extracted.
  destruct (is_namshi_url (message_text update)); [|reflexivity].
  destruct (extract_product_info_unfold (web w) (message_text update))
    as (clean & _ & Hinfo).
  rewrite Hinfo.
  set (info := match extract_body (web w) clean with
               | Ret r => r | Raise _ => error_record end) in *.
  unfold processing_text.
  destruct (telegram w [] (ReplyText _ None)) as [pm|e] eqn:Hpm.
  - cbn [perform].
    rewrite !(bot_bind_completes _ _ _ _ _ (api_completes _ _ _ _ Hpm)).
    unfold pure at 1.
    erewrite bot_bind_completes; [|reflexivity].
    rewrite perform_app. apply bot_bind_ext. unfold delivery_calls.
    destruct (image_urls info) as [|u us]; [reflexivity|].
    destruct (build_media_group w info) as [|p ps]; [reflexivity|].
    rewrite perform_app. apply bot_bind_ext, send_media_groups_perform.
  - cbn [perform].
    by rewrite !(bot_bind_raises _ _ _ _ _ (api_raises _ _ _ _ Hpm)).
Qed.

(** A run completes an initial part of the list: all of it, or the calls
    before the first one that Telegram refuses. *)
Lemma perform_trace (cs sofar : list call) :
  ∃ k : nat,
    (perform w cs sofar).2 = sofar ++ take k cs ∧
    match (perform w cs sofar).1 with
    | Ret _ => k = length cs
    | Raise e =>
        ∃ c, cs !! k = Some c ∧ telegram w (sofar ++ take k cs) c = Raise e
    end.
Proof.
  revert sofar. induction cs as [|c cs IH]; intros sofar.
  - exists 0%nat. split; [symmetry; apply List.app_nil_r|reflexivity].
  - cbn [perform]. unfold mbind, bot_bind, api.
    destruct (telegram w sofar c) as [m|e] eqn:Hc.
    + destruct (IH (sofar ++ [c])) as (k & Hdone & Hout).
      exists (S k). rewrite Hdone. cbn [take length lookup list_lookup].
      replace (sofar ++ c :: take k cs) with ((sofar ++ [c]) ++ take k cs)
        by (by rewrite <- List.app_assoc).
      split; [reflexivity|].
      destruct ((perform w cs (sofar ++ [c])).1) as [[]|e'].
      * by rewrite Hout.
      * exact Hout.
    + exists 0%nat. cbn [take fst snd lookup list_lookup].
      rewrite List.app_nil_r. split; [reflexivity|]. by exists c.
Qed.

End PlanFacts.

(** X11. Whatever Telegram answers, the calls the handler completes are an
    initial part of its plan: the "processing" reply, the delivery and the
    deletion, or the one guidance reply.  It returns normally only when the
    whole plan is completed; otherwise it raises the error of the first call
    that Telegram refused, and makes no call after it. *)
Theorem handle_message_follows_plan (w : World) (update : Update) :
  ∃ k : nat,
    (handle_message w update []).2 = take k (handler_plan w update) ∧
    match (handle_message w update []).1 with
    | Ret _ => k = length (handler_plan w update)
    | Raise e =>
        ∃ c, handler_plan w update !! k = Some c ∧
             telegram w (take k (handler_plan w update)) c = Raise e
    end.
Proof.
  rewrite handle_message_perform.
  destruct (perform_trace w (handler_plan w update) []) as (k & Hdone & Hout).
  exists k. by split.
Qed.

Lemma batches_of_bounded (media_group : list InputMediaPhoto) :
  media_group ≠ [] →
  Forall (fun group => (1 ≤ length group ≤ 10)%nat) (batches_of media_group).
Proof.
  intros Hne. rewrite batches_of_slices by done.
  apply Forall_fmap, Forall_forall. intros k Hk.
  apply elem_of_seq in Hk. simpl. rewrite length_take, length_drop.
  div_lia.
Qed.

Lemma concat_batches_of (media_group : list InputMediaPhoto) :
  media_group ≠ [] → concat (batches_of media_group) = media_group.
Proof.
  intros Hne. rewrite batches_of_slices, concat_slices by done.
  apply take_ge. div_lia.
Qed.

Lemma delivery_calls_well_formed (w : World) (update : Update)
    (info : product_info) :
  Forall (well_formed_call update) (delivery_calls w update info).
Proof.
  unfold delivery_calls.
  destruct (image_urls info); [by repeat constructor|].
  destruct (build_media_group w info) as [|p ps] eqn:E; [by repeat constructor|].
  apply Forall_app. split; [|by repeat constructor].
  apply Forall_fmap.
  eapply Forall_impl; [by apply (batches_of_bounded (p :: ps))|].
  by intros group Hg.
Qed.

Lemma handler_plan_well_formed (w : World) (update : Update) :
  Forall (well_formed_call update) (handler_plan w update).
Proof.
  unfold handler_plan.
  destruct (is_namshi_url _); [|by repeat constructor].
  destruct (telegram w [] _); [|by repeat constructor].
  constructor; [done|]. apply Forall_app.
  split; [apply delivery_calls_well_formed|by repeat constructor].
Qed.

(** X12. Whatever Telegram answers, every media group the handler manages
    to send goes to the chat of the update and holds at least 1 and at most
    10 photos: an empty or oversized group is never sent. *)
Theorem handle_message_groups_bounded (w : World) (update : Update) :
  Forall (fun c =>
            match c with
            | SendMediaGroup chat group =>
                chat = effective_chat_id update ∧ (1 ≤ length group ≤ 10)%nat
            | _ => True
            end)
         (handle_message w update []).2.
Proof.
  rewrite handle_message_perform.
  destruct (perform_trace w (handler_plan w update) []) as (k & -> & _).
  apply Forall_take, handler_plan_well_formed.
Qed.





(** ** Delivery when Telegram completes every call, lines 186-238 *)

Lemma perform_accepted (w : World) (cs sofar : list call) :
  accepts_all w → perform w cs sofar = (Ret (), sofar ++ cs).
Proof.
  intros Hw. revert sofar. induction cs as [|c cs IH]; intros sofar.
  - simpl. by rewrite List.app_nil_r.
  - cbn [perform]. destruct (Hw sofar c) as [m Hm].
    rewrite (bot_bind_completes _ _ _ _ _ (api_completes _ _ _ _ Hm)).
    rewrite IH. by rewrite <- List.app_assoc.
Qed.

(** With such a Telegram the handler completes its plan. *)
Lemma handle_message_accepted (w : World) (update : Update) :
  accepts_all w →
  is_namshi_url (message_text update) = true →
  ∃ processing_msg,
    telegram w [] (ReplyText processing_text None) = Ret processing_msg ∧
    handle_message w update []
    = (Ret (),
       ReplyText processing_text None
       :: delivery_calls w update (extracted w update)
       ++ [DeleteMessage (chat_id processing_msg) (message_id processing_msg)]).
Proof.
  intros Hw Hurl. rewrite handle_message_perform, perform_accepted by done.
  unfold handler_plan. rewrite Hurl.
  destruct (Hw [] (ReplyText processing_text None)) as [pm Hpm].
  rewrite Hpm. by exists pm.
Qed.

Lemma photos_sent_plan (w : World) (update : Update) (info : product_info)
    (deletion : call) :
  is_delete deletion = true →
  photos_sent (ReplyText processing_text None
               :: delivery_calls w update info ++ [deletion])
  = build_media_group w info.
Proof.
  intros Hdel. unfold photos_sent.
  change (ReplyText processing_text None :: ?l)
    with ([ReplyText processing_text None] ++ l).
  rewrite !groups_sent_app.
  assert (groups_sent [deletion] = []) as -> by by destruct deletion.
  change (groups_sent [ReplyText processing_text None])
    with (@nil (list InputMediaPhoto)).
  rewrite List.app_nil_r. simpl. unfold delivery_calls.
  destruct (image_urls info) as [|u us] eqn:Hurls;
    [by rewrite build_media_group_nil|].
  destruct (build_media_group w info) as [|p ps]; [done|].
  rewrite groups_sent_app, groups_sent_groups. simpl.
  rewrite List.app_nil_r. by apply concat_batches_of.
Qed.

Lemma details_text_starts_with_star (w_info : product_info) :
  ∃ rest, details_text w_info = String "*" rest.
Proof. by eexists. Qed.

Lemma delivery_calls_no_details (w : World) (update : Update)
    (info : product_info) :
  build_media_group w info ≠ [] →
  Forall (fun c => is_text (details_text info) c = false)
         (delivery_calls w update info).
Proof.
  intros Hmg. unfold delivery_calls.
  destruct (image_urls info) as [|u us] eqn:Hurls;
    [by rewrite build_media_group_nil in Hmg|].
  destruct (build_media_group w info) as [|p ps]; [done|].
  apply Forall_app. split.
  - apply Forall_fmap, Forall_forall. by intros group _.
  - destruct (details_text_starts_with_star info) as [rest ->].
    by repeat constructor.
Qed.

(** X14. With a Telegram that completes every call: when the image at
    index 0 downloads, the first photo delivered is that image and it
    carries the details text in Markdown; no other photo has a caption, and
    the details are not sent again as a text message. *)
Theorem handle_message_caption_on_first (w : World) (update : Update)
    (u : string) (us : list string) (image_data : list Byte.byte) :
  accepts_all w →
  is_namshi_url (message_text update) = true →
  image_urls (extracted w update) = u :: us →
  usable (download_image w u) = Some image_data →
  ∃ (done : list call) (ps : list InputMediaPhoto),
    handle_message w update [] = (Ret (), done) ∧
    photos_sent done
    = {| media := image_data;
         caption := details_text (extracted w update);
         parse_mode := Some MARKDOWN |} :: ps ∧
    Forall (fun q => caption q = "") ps ∧
    Forall (fun c => is_text (details_text (extracted w update)) c = false) done.
Proof.
  intros Hw Hurl Hurls Hdata.
  destruct (handle_message_accepted w update Hw Hurl) as (pm & _ & ->).
  set (info := extracted w update) in *.
  assert (photo_at info w 0 u
          = Some {| media := image_data; caption := details_text info;
                    parse_mode := Some MARKDOWN |}) as Hphoto.
  { unfold photo_at, usable in *.
    destruct (download_image w u) as [[|b bs]|]; [done| |done].
    by injection Hdata as <-. }
  destruct (caption_on_first_image w info u us _ Hurls Hphoto)
    as (ps & Hmg & _ & Hps).
  eexists _, ps. split; [done|]. split; [|split; [done|]].
  - by rewrite photos_sent_plan.
  - destruct (details_text_starts_with_star info) as [rest Hrest].
    constructor; [by rewrite Hrest|]. apply Forall_app. split.
    + apply delivery_calls_no_details. by rewrite Hmg.
    + by repeat constructor.
Qed.

Lemma handle_message_caption_on_first_witness :
  ∃ (done : list call) (ps : list InputMediaPhoto),
    handle_message world_twelve_images sample_update [] = (Ret (), done) ∧
    photos_sent done
    = {| media := [Byte.x89; Byte.x50];
         caption := details_text (extracted world_twelve_images sample_update);
         parse_mode := Some MARKDOWN |} :: ps ∧
    Forall (fun q => caption q = "") ps ∧
    Forall (fun c => is_text (details_text
                        (extracted world_twelve_images sample_update)) c = false)
           done.
Proof.
  eapply (handle_message_caption_on_first world_twelve_images sample_update).
  - intros done c. eexists. reflexivity.
  - reflexivity.
  - vm_compute. reflexivity.
  - reflexivity.
Defined.

(** X15. With a Telegram that completes every call: when no image could be
    downloaded, or none was found, no media group is sent; the details go
    out as a Markdown text message, followed by the notice that fits, and
    the "processing" message is deleted. *)
Theorem handle_message_without_photos (w : World) (update : Update) :
  accepts_all w →
  is_namshi_url (message_text update) = true →
  build_media_group w (extracted w update) = [] →
  ∃ processing_msg,
    telegram w [] (ReplyText processing_text None) = Ret processing_msg ∧
    handle_message w update []
    = (Ret (),
       [ReplyText processing_text None;
        ReplyText (details_text (extracted w update)) (Some MARKDOWN);
        ReplyText (match image_urls (extracted w update) with
                   | [] => "No product images found."
                   | _ => "Failed to download product images."
                   end) None;
        DeleteMessage (chat_id processing_msg) (message_id processing_msg)]).
Proof.
  intros Hw Hurl Hmg.
  destruct (handle_message_accepted w update Hw Hurl) as (pm & Hpm & ->).
  exists pm. split; [done|]. unfold delivery_calls. rewrite Hmg.
  by destruct (image_urls (extracted w update)).
Qed.

Lemma handle_message_without_photos_witness :
  ∃ processing_msg,
    telegram world_all_images_down [] (ReplyText processing_text None)
    = Ret processing_msg ∧
    handle_message world_all_images_down sample_update []
    = (Ret (),
       [ReplyText processing_text None;
        ReplyText (details_text (extracted world_all_images_down sample_update))
                  (Some MARKDOWN);
        ReplyText "Failed to download product images." None;
        DeleteMessage (chat_id processing_msg) (message_id processing_msg)]).
Proof.
  apply (handle_message_without_photos world_all_images_down sample_update).
  - intros done c. eexists. reflexivity.
  - reflexivity.
  - vm_compute. reflexivity.
Defined.

Lemma media_of_photos (w : World) (info : product_info) (l : list string)
    (f : nat → nat) :
  media <$> omap (fun '(i, image_url) => photo_at info w i image_url)
                 (imap (fun i u => (f i, u)) l)
  = omap (fun image_url => usable (download_image w image_url)) l.
Proof.
  revert f. induction l as [|u l IH]; intros f; [done|].
  simpl. unfold photo_at at 1, usable at 1.
  destruct (download_image w u) as [[|b bs]|]; simpl;
    try apply (IH (f ∘ S)).
  f_equal. apply (IH (f ∘ S)).
Qed.

(** X16. With a Telegram that completes every call, the photos delivered,
    read across the media groups, are the images that could be downloaded
    (an empty body counts as a failure), in the order of the record's image
    URLs. *)
Theorem handle_message_photos_in_order (w : World) (update : Update) :
  accepts_all w →
  is_namshi_url (message_text update) = true →
  ∃ done : list call,
    handle_message w update [] = (Ret (), done) ∧
    media <$> photos_sent done
    = omap (fun image_url => usable (download_image w image_url))
           (image_urls (extracted w update)).
Proof.
  intros Hw Hurl.
  destruct (handle_message_accepted w update Hw Hurl) as (pm & _ & ->).
  eexists. split; [done|].
  rewrite photos_sent_plan by done.
  rewrite build_media_group_photos. apply (media_of_photos _ _ _ id).
Qed.

Lemma handle_message_photos_in_order_witness :
  ∃ done : list call,
    handle_message world_first_image_down sample_update [] = (Ret (), done) ∧
    media <$> photos_sent done = [[Byte.x89; Byte.x50]].
Proof.
  apply (handle_message_photos_in_order world_first_image_down sample_update).
  - intros done c. eexists. reflexivity.
  - reflexivity.
Defined.

(** ** What can send [extract_product_info] to its [except] branch *)

Lemma int_raises (s : string) (e : exn) : PyInt.int s = Raise e → e = ValueError.
Proof.
  unfold PyInt.int.
  destruct (match PyInt.rskip (PyInt.lskip s) with
            | String "+"%char d => PyInt.digits 0 false d
            | String "-"%char d => Z.opp <$> PyInt.digits 0 false d
            | _ => PyInt.digits 0 false (PyInt.rskip (PyInt.lskip s))
            end); [|by intros [= <-]].
  by destruct (_ <? _)%nat; intros [= <-].
Qed.

Lemma split_second (s sep : string) :
  PyStr.contains sep s = true → ∃ x, py_index (PyStr.split s sep) 1 = Ret x.
Proof.
  unfold PyStr.contains, PyStr.split.
  destruct (String.length s) as [|n]; simpl;
    destruct (PyStr.cut sep s) as [[before after]|]; try done; intros _.
  - by eexists.
  - destruct n; simpl; destruct (PyStr.cut sep after) as [[??]|]; by eexists.
Qed.

Lemma width_param_raises (src : string) (e : exn) :
  PyStr.contains "width=" src = true → width_param src = Raise e →
  e = ValueError.
Proof.
  intros Hc. unfold width_param.
  destruct (split_second _ _ Hc) as [after ->]. simpl.
  rewrite split_first. simpl. apply int_raises.
Qed.

Lemma for_each_returns {A S} (step : S → A → outcome S) (l : list A) (acc : S) :
  (∀ acc x, ∃ acc', step acc x = Ret acc') → ∃ r, for_each l step acc = Ret r.
Proof.
  intros Hstep. revert acc. induction l as [|x l IH]; intros acc; simpl.
  - by eexists.
  - destruct (Hstep acc x) as [acc' ->]. simpl. apply IH.
Qed.

Lemma for_each_raise_inv {A S} (step : S → A → outcome S) (l : list A)
    (acc : S) (e : exn) :
  for_each l step acc = Raise e → ∃ x acc', x ∈ l ∧ step acc' x = Raise e.
Proof.
  revert acc. induction l as [|x l IH]; intros acc; simpl; [done|].
  destruct (step acc x) as [acc'|e'] eqn:E; simpl.
  - intros (y & acc'' & Hy & Hstep)%IH. exists y, acc''. split; [|done].
    by apply list_elem_of_further.
  - intros [= ->]. exists x, acc. split; [apply list_elem_of_here|done].
Qed.

Lemma gallery_step_returns (acc : list string) (img : Soup.element) :
  ∃ acc', gallery_step acc img = Ret acc'.
Proof.
  unfold gallery_step. destruct (Soup.el_attrs img !! "src") as [src|];
    [|by eexists].
  destruct (PyStr.startswith src "http"); [|by eexists].
  rewrite upgrade_width_cut. by eexists.
Qed.

Lemma meta_step_returns (acc : list string) (img : Soup.element) :
  ∃ acc', meta_step acc img = Ret acc'.
Proof.
  unfold meta_step. destruct (Soup.el_attrs img !! "content") as [c|];
    [|by eexists].
  destruct (_ && _); [|by eexists]. destruct (_ || _); by eexists.
Qed.

Lemma alt_step_raise_inv (acc : list string) (img : Soup.element) (e : exn) :
  alt_step acc img = Raise e →
  ∃ src, Soup.el_attrs img !! "src" = Some src ∧
         PyStr.startswith src "http" = true ∧
         PyStr.contains "width=" src = true ∧
         width_param src = Raise e.
Proof.
  unfold alt_step, wide_enough.
  destruct (Soup.el_attrs img !! "src") as [src|]; [|done].
  destruct (PyStr.startswith src "http") eqn:Hhttp; [|done].
  destruct (PyStr.contains "width=" src) eqn:Hc.
  - destruct (width_param src) as [z|e'] eqn:Hw; simpl.
    + rewrite upgrade_width_cut. by destruct (_ || _).
    + intros [= ->]. exists src. by split_and!.
  - simpl. rewrite upgrade_width_cut. by destruct (has_image_marker src).
Qed.

Lemma extract_name_returns (soup : list Soup.node) :
  ∃ name, extract_name soup = Ret name.
Proof.
  unfold extract_name.
  destruct (Soup.select_one soup sel_meta_title) as [meta_title|].
  - destruct (Soup.el_attrs meta_title !! "content") as [c|].
    + rewrite split_first. by eexists.
    + destruct (or_else_one _ _); by eexists.
  - destruct (or_else_one _ _); by eexists.
Qed.

Lemma extract_images_raise_inv (soup : list Soup.node) (e : exn) :
  extract_images soup = Raise e →
  ∃ img src, img ∈ Soup.select soup sel_alt_images ∧
             Soup.el_attrs img !! "src" = Some src ∧
             PyStr.startswith src "http" = true ∧
             PyStr.contains "width=" src = true ∧
             width_param src = Raise e.
Proof.
  unfold extract_images.
  destruct (for_each_returns gallery_step (Soup.select soup sel_gallery) []
              gallery_step_returns) as [l1 ->]. simpl.
  destruct l1 as [|u1 l1]; [|done].
  destruct (for_each_returns meta_step (Soup.select soup sel_meta_image) []
              meta_step_returns) as [l2 ->]. simpl.
  destruct l2 as [|u2 l2]; [|done].
  intros (img & acc & Himg & Hstep)%for_each_raise_inv.
  apply alt_step_raise_inv in Hstep as (src & ?). by exists img, src.
Qed.

(** X17. The [try] block raises for four reasons only: the request raised;
    the page was answered with a status from 400 to 599; the parser rejected
    the page; or one of the images selected by alt text has an absolute
    [src] whose width value [int] does not accept, which is a [ValueError].
    Reading the name, the price, the sizes, the gallery and the [og:image]
    annotations of a parsed page never raises. *)
Theorem extract_body_raises (web : Web) (clean : string) (e : exn) :
  extract_body web clean = Raise e →
  requests_get web clean headers = Raise e ∨
  (∃ response, requests_get web clean headers = Ret response ∧
               (400 ≤ status_code response < 600)%nat ∧ e = HTTPError) ∨
  (∃ response, requests_get web clean headers = Ret response ∧
               html_parser web (text response) = Raise e) ∨
  (∃ response soup img src,
     requests_get web clean headers = Ret response ∧
     html_parser web (text response) = Ret soup ∧
     img ∈ Soup.select soup sel_alt_images ∧
     Soup.el_attrs img !! "src" = Some src ∧
     PyStr.startswith src "http" = true ∧
     PyStr.contains "width=" src = true ∧
     width_param src = Raise e ∧ e = ValueError).
Proof.
  unfold extract_body. intros H.
  destruct (requests_get web clean headers) as [response|e'] eqn:Hget;
    [|left; by injection H as ->].
  right. unfold mbind at 1 in H. unfold outcome_bind at 1 in H.
  destruct (raise_for_status_cases response) as [[Hst Hr]|[Hst Hr]];
    rewrite Hr in H; simpl in H.
  - injection H as <-. left. by exists response.
  - right.
    destruct (html_parser web (text response)) as [soup|e'] eqn:Hsoup;
      simpl in H; [|injection H as ->; left; by exists response].
    destruct (extract_name_returns soup) as [name Hname].
    rewrite Hname in H. simpl in H.
    destruct (extract_images soup) as [urls|e'] eqn:Himg; simpl in H; [done|].
    injection H as ->. right.
    apply extract_images_raise_inv in Himg
      as (img & src & Hin & Hsrc & Hhttp & Hc & Hw).
    exists response, soup, img, src. split_and!; try done.
    by eapply width_param_raises.
Qed.

Lemma extract_body_raises_witness :
  extract_body (web_serving page_bad_width []) "https://www.namshi.com/a/p/"
  = Raise ValueError ∧
  (requests_get (web_serving page_bad_width []) "https://www.namshi.com/a/p/"
     headers = Raise ValueError ∨
   (∃ response,
      requests_get (web_serving page_bad_width []) "https://www.namshi.com/a/p/"
        headers = Ret response ∧
      (400 ≤ status_code response < 600)%nat ∧ ValueError = HTTPError) ∨
   (∃ response,
      requests_get (web_serving page_bad_width []) "https://www.namshi.com/a/p/"
        headers = Ret response ∧
      html_parser (web_serving page_bad_width []) (text response)
      = Raise ValueError) ∨
   (∃ response soup img src,
      requests_get (web_serving page_bad_width []) "https://www.namshi.com/a/p/"
        headers = Ret response ∧
      html_parser (web_serving page_bad_width []) (text response) = Ret soup ∧
      img ∈ Soup.select soup sel_alt_images ∧
      Soup.el_attrs img !! "src" = Some src ∧
      PyStr.startswith src "http" = true ∧
      PyStr.contains "width=" src = true ∧
      width_param src = Raise ValueError ∧ ValueError = ValueError)).
Proof.
  split; [reflexivity|]. apply extract_body_raises. reflexivity.
Defined.

(** ** The query string and the handler *)

(** X18. Appending [?] and any text to an accepted URL that has no query
    changes nothing in what the handler does: the text is still accepted,
    and the page fetched is the same. *)
Theorem handle_message_ignores_query (w : World) (base query : string)
    (chat : Z) :
  is_namshi_url base = true →
  PyStr.contains "?" base = false →
  handle_message w {| message_text := base +:+ "?" +:+ query;
                      effective_chat_id := chat |}
  = handle_message w {| message_text := base; effective_chat_id := chat |}.
Proof.
  intros Hurl Hbase.
  assert (is_namshi_url (base +:+ "?" +:+ query) = true) as Hurl'.
  { apply is_namshi_url_iff in Hurl
      as (scheme & www & path & rest & Hs & Hw & Hp & ->).
    apply is_namshi_url_iff.
    exists scheme, www, path, (rest +:+ "?" +:+ query). split_and!; try done.
    by rewrite !str_append_assoc. }
  assert (extract_product_info (web w) (base +:+ "?" +:+ query)
          = extract_product_info (web w) base) as Hsame.
  { unfold extract_product_info.
    rewrite !clean_url_returns, (cut_question_mark _ _ Hbase).
    unfold PyStr.contains in Hbase.
    by destruct (PyStr.cut "?" base) as [[??]|]. }
  unfold handle_message. cbn [message_text effective_chat_id].
  by rewrite Hurl, Hurl', Hsame.
Qed.

Lemma handle_message_ignores_query_witness :
  handle_message world_twelve_images
    {| message_text := "https://www.namshi.com/uae-en/buy-shoe/123456/p/"
                       +:+ "?" +:+ "utm_source=share";
       effective_chat_id := 7 |}
  = handle_message world_twelve_images
      {| message_text := "https://www.namshi.com/uae-en/buy-shoe/123456/p/";
         effective_chat_id := 7 |}.
Proof. apply handle_message_ignores_query; reflexivity. Defined.

(** ** The name read from the title annotation, lines 63-65 *)

Lemma lstrip_no_char (a : ascii) (s : string) :
  PyStr.contains (String a "") s = false →
  PyStr.contains (String a "") (PyStr.lstrip s) = false.
Proof.
  induction s as [|c s IH]; [done|]. simpl.
  destruct (PyStr.isspace c); [|done].
  rewrite contains_char_cons. case_decide; [done|]. apply IH.
Qed.

Lemma rstrip_no_char (a : ascii) (s : string) :
  PyStr.contains (String a "") s = false →
  PyStr.contains (String a "") (PyStr.rstrip s) = false.
Proof.
  induction s as [|c s IH]; [done|].
  rewrite contains_char_cons. case_decide as Hac; [done|]. intros Hs.
  specialize (IH Hs). simpl.
  destruct (PyStr.rstrip s) as [|d r].
  - destruct (PyStr.isspace c); [done|].
    rewrite contains_char_cons. by rewrite decide_False.
  - rewrite contains_char_cons. by rewrite decide_False.
Qed.

Lemma cut_before_no_char (a : ascii) (s before after : string) :
  PyStr.cut (String a "") s = Some (before, after) →
  PyStr.contains (String a "") before = false.
Proof.
  revert before. induction s as [|c s IH]; intros before; simpl; [done|].
  case_decide as Hac; [by intros [= <- <-]|].
  destruct (PyStr.cut (String a "") s) as [[b0 a0]|]; [|done].
  intros [= <- <-]. rewrite contains_char_cons, decide_False by done.
  by apply IH.
Qed.

(** X19. When the page has a title annotation with a [content], the name is
    the stripped text before the first [|] of the content, or the stripped
    content when it holds no [|]; so the name never holds a [|]: the site's
    suffix is cut off. *)
Theorem extract_name_cuts_suffix (soup : list Soup.node)
    (meta_title : Soup.element) (c : string) :
  Soup.select_one soup sel_meta_title = Some meta_title →
  Soup.el_attrs meta_title !! "content" = Some c →
  ∃ name : string,
    extract_name soup = Ret name ∧
    PyStr.contains "|" name = false ∧
    ((∃ before rest : string,
        c = before +:+ "|" +:+ rest ∧
        PyStr.contains "|" before = false ∧
        name = PyStr.strip before)
     ∨ (PyStr.contains "|" c = false ∧ name = PyStr.strip c)).
Proof.
  intros Hmeta Hc. unfold extract_name. rewrite Hmeta, Hc, split_first. simpl.
  destruct (PyStr.cut "|" c) as [[before after]|] eqn:E.
  - assert (PyStr.contains "|" before = false) as Hbefore
      by by eapply cut_before_no_char.
    exists (PyStr.strip before). split_and!; try done.
    + by apply rstrip_no_char, lstrip_no_char.
    + left. exists before, after. split_and!; try done.
      by apply cut_Some in E as [-> _].
  - assert (PyStr.contains "|" c = false) as Hnone
      by (unfold PyStr.contains; by rewrite E).
    exists (PyStr.strip c). split_and!; try done.
    + by apply rstrip_no_char, lstrip_no_char.
    + by right.
Qed.

Lemma extract_name_cuts_suffix_witness :
  ∃ name : string,
    extract_name page_bad_width = Ret name ∧
    PyStr.contains "|" name = false ∧
    ((∃ before rest : string,
        "Running Shoe | Namshi" = before +:+ "|" +:+ rest ∧
        PyStr.contains "|" before = false ∧
        name = PyStr.strip before)
     ∨ (PyStr.contains "|" "Running Shoe | Namshi" = false ∧
        name = PyStr.strip "Running Shoe | Namshi")).
Proof. eapply extract_name_cuts_suffix; reflexivity. Defined.

(** Telegram refuses the third call: the first media group is sent, the
    second is not, and the "processing" message stays. *)
Example handle_message_stops_at_failure :
  ∃ group,
    handle_message (world_failing_after 2) sample_update []
    = (Raise TelegramError,
       [ReplyText processing_text None; SendMediaGroup 7 group]) ∧
    length group = 10%nat.
Proof. eexists. split; [vm_compute; reflexivity|reflexivity]. Qed.
